(** * Pyrseas: functions, triggers and operator families

    A shallow embedding of [pyrseas/dbobject/function.py],
    [pyrseas/dbobject/trigger.py] and [pyrseas/dbobject/operfamily.py],
    and the properties of statement generation, dependency
    extraction and desired-state loading proved about it.

    The Python code works on objects whose attributes come and go at run
    time ([hasattr], [getattr] with a default, [setattr], [del]), so an
    object is embedded as its class together with its attribute
    dictionary, and a value as a small universe of Python values.  Code
    that can raise returns a [result]. *)

From Stdlib Require Import ZArith Ascii.
From Stdlib Require String.
From stdpp Require Import gmap strings list fin_maps functions pretty.

#[local] Set Warnings "-register-all,-clear-no-such-hyp".

(** ** Exceptions *)

Inductive pyexc : Type :=
| KeyError
| ValueError
| AttributeError
| TypeError
| IndexError.

Inductive result (A : Type) : Type :=
| Ok (a : A)
| Raise (e : pyexc).
Arguments Ok {A} a.
Arguments Raise {A} e.

#[global] Instance result_ret : MRet result := @Ok.
#[global] Instance result_bind : MBind result :=
  λ A B f m, match m with Ok a => f a | Raise e => Raise e end.

#[global] Instance result_fmap : FMap result :=
  λ A B f m, match m with Ok a => Ok (f a) | Raise e => Raise e end.

Definition is_ok {A} (r : result A) : bool :=
  match r with Ok _ => true | Raise _ => false end.

(** ** Python strings

    A [str] is a [string]; the methods are computed on its list of
    characters. *)

Abbreviation chars := String.list_ascii_of_string.
Abbreviation str := String.string_of_list_ascii.

Definition nl : string := String (ascii_of_nat 10) "".

Definition len (s : string) : Z := Z.of_nat (length (chars s)).

Definition lower_char (c : ascii) : ascii :=
  let n := nat_of_ascii c in
  if (65 <=? n)%nat && (n <=? 90)%nat then ascii_of_nat (n + 32) else c.

Definition upper_char (c : ascii) : ascii :=
  let n := nat_of_ascii c in
  if (97 <=? n)%nat && (n <=? 122)%nat then ascii_of_nat (n - 32) else c.

(** [s.lower()] and [s.upper()], on ASCII letters. *)
Definition str_lower (s : string) : string := str (lower_char <$> chars s).
Definition str_upper (s : string) : string := str (upper_char <$> chars s).

(** Index of the first occurrence of [sub] in [l]. *)
Fixpoint find_list (sub l : list ascii) : option nat :=
  if decide (sub `prefix_of` l) then Some 0%nat
  else match l with
       | [] => None
       | _ :: l' => S <$> find_list sub l'
       end.

(** Index of the last occurrence of [sub] in [l]. *)
Fixpoint rfind_list (sub l : list ascii) : option nat :=
  match l with
  | [] => if decide (sub = []) then Some 0%nat else None
  | _ :: l' =>
      match rfind_list sub l' with
      | Some i => Some (S i)
      | None => if decide (sub `prefix_of` l) then Some 0%nat else None
      end
  end.

(** [s.find(sub)] and [s.rfind(sub)]: [-1] when [sub] does not occur. *)
Definition str_find (s sub : string) : Z :=
  match find_list (chars sub) (chars s) with
  | Some i => Z.of_nat i
  | None => -1
  end.

Definition str_rfind (s sub : string) : Z :=
  match rfind_list (chars sub) (chars s) with
  | Some i => Z.of_nat i
  | None => -1
  end.

(** [sub in s] *)
Definition str_contains (sub s : string) : bool :=
  bool_decide (is_Some (find_list (chars sub) (chars s))).

(** [s.startswith(p)] *)
Definition str_startswith (s p : string) : bool :=
  bool_decide (chars p `prefix_of` chars s).

(** A slice bound, as Python normalises it against the length [n]:
    a negative bound counts from the end, and both are clamped. *)
Definition clamp (n : Z) (i : option Z) (d : Z) : Z :=
  match i with
  | None => d
  | Some i => if (i <? 0)%Z then Z.max (i + n) 0 else Z.min i n
  end.

(** [s[lo:hi]] *)
Definition str_slice (s : string) (lo hi : option Z) : string :=
  let n := len s in
  let a := clamp n lo 0 in
  let b := clamp n hi n in
  str (take (Z.to_nat (b - a)) (drop (Z.to_nat a) (chars s))).

(** [s.partition(sep)], for a non-empty [sep]. *)
Definition str_partition (s sep : string) : string * string * string :=
  match find_list (chars sep) (chars s) with
  | Some i =>
      (str (take i (chars s)), sep,
       str (drop (i + length (chars sep)) (chars s)))
  | None => (s, "", "")
  end.

(** [sep.join(l)] *)
Definition str_join (sep : string) (l : list string) : string :=
  String.concat sep l.

(** [s.replace(old, new)] for a non-empty [old]: occurrences are
    replaced from the left and do not overlap; [skip] counts the
    characters of an occurrence still to be passed over. *)
Fixpoint replace_list (old new : list ascii) (skip : nat) (l : list ascii)
  : list ascii :=
  match l with
  | [] => []
  | c :: l' =>
      match skip with
      | S k => replace_list old new k l'
      | O =>
          if decide (old `prefix_of` l)
          then new ++ replace_list old new (length old - 1) l'
          else c :: replace_list old new 0 l'
      end
  end.

Definition str_replace (s old new : string) : string :=
  str (replace_list (chars old) (chars new) 0 (chars s)).

(** ** Python values and objects *)

(** Identity of an object. *)
Abbreviation ref := positive.

Inductive pyval : Type :=
| PNone
| PBool (b : bool)
| PInt (z : Z)
| PStr (s : string)
| PList (l : list string)
| PRef (r : ref).

#[global] Instance pyval_eq_dec : EqDecision pyval.
Proof. solve_decision. Defined.

Inductive pyclass : Type :=
| Function
| Aggregate
| Trigger
| OperatorFamily
| DbType
| OtherClass.

#[global] Instance pyclass_eq_dec : EqDecision pyclass.
Proof. solve_decision. Defined.

(** An object: its class and its [__dict__]. *)
Record pyobject : Type := PyObject {
  cls : pyclass;
  attrs : gmap string pyval
}.

#[global] Instance pyobject_eq_dec : EqDecision pyobject.
Proof. solve_decision. Defined.

(** The objects that references denote. *)
Abbreviation heap := (ref → pyobject).

Definition hasattr (o : pyobject) (a : string) : bool :=
  bool_decide (is_Some (attrs o !! a)).

(** [o.a] *)
Definition getattr (o : pyobject) (a : string) : result pyval :=
  match attrs o !! a with
  | Some v => Ok v
  | None => Raise AttributeError
  end.

(** [getattr(o, a, d)] *)
Definition getattr_d (o : pyobject) (a : string) (d : pyval) : pyval :=
  default d (attrs o !! a).

Definition setattr (o : pyobject) (a : string) (v : pyval) : pyobject :=
  PyObject (cls o) (<[a := v]> (attrs o)).

(** Truth value of a Python value. *)
Definition truthy (v : pyval) : bool :=
  match v with
  | PNone => false
  | PBool b => b
  | PInt z => negb (z =? 0)%Z
  | PStr s => negb (bool_decide (s = ""))
  | PList l => negb (bool_decide (l = []))
  | PRef _ => true
  end.

(** [bool] is a subclass of [int]: [True == 1]. *)
Definition as_num (v : pyval) : option Z :=
  match v with
  | PBool b => Some (Z.b2z b)
  | PInt z => Some z
  | _ => None
  end.

(** [v == w] *)
Definition py_eq (v w : pyval) : bool :=
  match as_num v, as_num w with
  | Some x, Some y => (x =? y)%Z
  | None, None => bool_decide (v = w)
  | _, _ => false
  end.

(** [v != w] *)
Definition py_ne (v w : pyval) : bool := negb (py_eq v w).

(** [v is True] *)
Definition is_True (v : pyval) : bool := bool_decide (v = PBool true).

(** [v in [a, b, ...]] *)
Definition py_in (v : pyval) (l : list pyval) : bool :=
  existsb (py_eq v) l.

(** The elements [for x in v] goes through, for the values that hold
    strings. *)
Definition py_iter (v : pyval) : result (list string) :=
  match v with
  | PList l => Ok l
  | PStr s => Ok ((λ c, String c "") <$> chars s)
  | _ => Raise TypeError
  end.

(** [set(v)] *)
Definition py_set (v : pyval) : result (gset string) :=
  l ← py_iter v; Ok (list_to_set l).

(** [x in v] for a string [x]: membership in a list, substring of a
    string. *)
Definition py_contains (x : string) (v : pyval) : result bool :=
  match v with
  | PList l => Ok (bool_decide (x ∈ l))
  | PStr s => Ok (str_contains x s)
  | _ => Raise TypeError
  end.

(** [v[0]] *)
Definition py_index0 (v : pyval) : result pyval :=
  match v with
  | PList (x :: _) => Ok (PStr x)
  | PList [] => Raise IndexError
  | PStr s =>
      match chars s with
      | c :: _ => Ok (PStr (String c ""))
      | [] => Raise IndexError
      end
  | _ => Raise TypeError
  end.

(** [v.upper()] *)
Definition py_upper (v : pyval) : result string :=
  match v with
  | PStr s => Ok (str_upper s)
  | _ => Raise AttributeError
  end.


(** Statement lists nest: the methods append both statements and the
    lists other methods return. *)
Inductive stmt : Type :=
| Sql (s : string)
| Stmts (l : list stmt).

Fixpoint flatten (x : stmt) : list string :=
  match x with
  | Sql s => [s]
  | Stmts l => (fix go (l : list stmt) : list string :=
                  match l with
                  | [] => []
                  | y :: l' => flatten y ++ go l'
                  end) l
  end.

Definition flatten_all (l : list stmt) : list string := flatten (Stmts l).

(** ** The rest of [pyrseas.dbobject]

    [function.py], [trigger.py] and [operfamily.py] import their base
    classes and helpers from the package [pyrseas.dbobject], whose
    source is not part of this development.  What the three modules
    use of it is collected here, as operations that an instance
    supplies. *)

Record database : Type := Database {
  tables : gmap (string * string) ref;
  functions : gmap (string * string * string) ref
}.

Class DbObjectLib : Type := {
  (** [quote_id(name)] *)
  quote_id : string → string;
  (** how a schema and a name are written as one qualified name *)
  qualify : pyval → pyval → string;
  (** [str(v)] for a list and for an object *)
  repr : pyval → string;
  (** [split_schema_obj(obj, sch)] *)
  split_schema_obj : string → string → string * string;
  (** the statements the decorators [commentable], [ownable] and
      [grantable] add for an object *)
  comment_stmts : pyobject → list stmt;
  owner_stmts : pyobject → list stmt;
  grant_stmts : pyobject → list stmt;
  (** [DbSchemaObject.alter(self, inobj, no_owner)] *)
  base_alter : pyobject → pyobject → bool → list stmt;
  (** [DbSchemaObject.drop(self)] *)
  base_drop : pyobject → list stmt;
  (** [DbObject._base_map(self, db, no_owner, no_privs)] *)
  base_map : pyobject → bool → bool → gmap string pyval;
  (** [DbObject.diff_privileges], [DbObject.diff_description] *)
  diff_privileges : pyobject → pyobject → list stmt;
  diff_description : pyobject → pyobject → list stmt;
  (** [DbObject.get_implied_deps(self, db)] *)
  base_implied_deps : database → pyobject → gset ref;
  (** [privileges_from_map(privs, allprivs, owner)] *)
  privileges_from_map : pyval → string → pyval → result pyval
}.

(** Modelled from the spec: [DbSchemaObject.qualname], which is not in
    the sources at hand; the spec has it as "the fully qualified name
    used in rendered statements (schema-qualified name ...)", so it is
    a function of the object's schema and name. *)
Definition qualname {lib : DbObjectLib} (o : pyobject) : string :=
  qualify (getattr_d o "schema" PNone) (getattr_d o "name" PNone).

(** Modelled from the spec: the decorators [commentable], [ownable] and
    [grantable], which are not in the sources at hand; the spec has the
    statements of a capability as "trailing statements ... appended
    only for capabilities the kind actually has". *)
Definition commentable {lib : DbObjectLib} (o : pyobject) (l : list stmt)
  : list stmt := l ++ comment_stmts o.
Definition ownable {lib : DbObjectLib} (o : pyobject) (l : list stmt)
  : list stmt := l ++ owner_stmts o.
Definition grantable {lib : DbObjectLib} (o : pyobject) (l : list stmt)
  : list stmt := l ++ grant_stmts o.

(** Modelled from the spec: the property [objtype] of [DbObject] for
    the classes that do not define it themselves; external keys start
    with the kind word ("function foo(integer, text)").
    [OperatorFamily.objtype] is the one of [operfamily.py]. *)
Definition objtype (c : pyclass) : string :=
  match c with
  | Function => "FUNCTION"
  | Aggregate => "AGGREGATE"
  | Trigger => "TRIGGER"
  | OperatorFamily => "OPERATOR FAMILY"
  | DbType => "TYPE"
  | OtherClass => "OBJECT"
  end.

(** [str(v)], as [%s] formats a value. *)
Definition pystr {lib : DbObjectLib} (v : pyval) : string :=
  match v with
  | PNone => "None"
  | PBool true => "True"
  | PBool false => "False"
  | PInt z => pretty z
  | PStr s => s
  | PList _ | PRef _ => repr v
  end.

(** [VOLATILITY_TYPES] *)
Definition VOLATILITY_TYPES : gmap string string :=
  list_to_map [("i", "immutable"); ("s", "stable"); ("v", "volatile")].

(** [VOLATILITY_TYPES[v]] *)
Definition volatility_type (v : pyval) : result string :=
  match v with
  | PStr s =>
      match VOLATILITY_TYPES !! s with
      | Some t => Ok t
      | None => Raise KeyError
      end
  | PList _ => Raise TypeError
  | _ => Raise KeyError
  end.

(** ** [class Proc] *)

Module Proc.
Section Proc.
Context {lib : DbObjectLib}.

Definition allprivs : string := "X".

Definition extern_key (self : pyobject) : result string :=
  name ← getattr self "name";
  arguments ← getattr self "arguments";
  Ok (str_lower (objtype (cls self)) +:+ " " +:+ pystr name +:+ "("
      +:+ pystr arguments +:+ ")").

Definition identifier (self : pyobject) : result string :=
  arguments ← getattr self "arguments";
  Ok (qualname self +:+ "(" +:+ pystr arguments +:+ ")").

End Proc.
End Proc.

(** ** [class Function(Proc)] *)

Module Function.
Section Function.
Context {lib : DbObjectLib}.


(** The source text of [create]: [src]. *)
Definition src_clause (self : pyobject) (newsrc : pyval) : result string :=
  if hasattr self "obj_file" then
    obj_file ← getattr self "obj_file";
    symbol ← (if hasattr self "link_symbol" then
                link_symbol ← getattr self "link_symbol";
                if truthy link_symbol then Ok link_symbol
                else getattr self "name"
              else getattr self "name");
    Ok ("'" +:+ pystr obj_file +:+ "', '" +:+ pystr symbol +:+ "'")
  else
    language ← getattr self "language";
    if py_eq language (PStr "internal") then
      source ← (if truthy newsrc then Ok newsrc else getattr self "source");
      Ok ("$$" +:+ pystr source +:+ "$$")
    else
      source ← (if truthy newsrc then Ok newsrc else getattr self "source");
      Ok ("$_$" +:+ pystr source +:+ "$_$").

Definition volat_clause (self : pyobject) : result string :=
  if hasattr self "volatility" then
    volatility ← getattr self "volatility";
    t ← volatility_type volatility;
    Ok (" " +:+ str_upper t)
  else Ok "".

Definition flag_clause (self : pyobject) (a : string) (text : string)
  : string :=
  if hasattr self a && truthy (getattr_d self a PNone) then text else "".

Definition leakproof_clause (self : pyobject) : string :=
  if hasattr self "leakproof" && is_True (getattr_d self "leakproof" PNone)
  then " LEAKPROOF" else "".

Definition config_clause (self : pyobject) : result string :=
  if hasattr self "configuration" then
    configuration ← getattr self "configuration";
    c ← py_index0 configuration;
    Ok (" SET " +:+ pystr c)
  else Ok "".

(** The [COST] clause of [create]: [cost]. *)
Definition cost_clause (self : pyobject) : result string :=
  if hasattr self "cost" then
    cost ← getattr self "cost";
    if py_ne cost (PInt 0) then
      language ← getattr self "language";
      if py_in language [PStr "c"; PStr "internal"] then
        if py_ne cost (PInt 1) then Ok (" COST " +:+ pystr cost) else Ok ""
      else
        if py_ne cost (PInt 100) then Ok (" COST " +:+ pystr cost) else Ok ""
    else Ok ""
  else Ok "".

(** The [ROWS] clause of [create]: [rows]. *)
Definition rows_clause (self : pyobject) : result string :=
  if hasattr self "rows" then
    rows ← getattr self "rows";
    if py_ne rows (PInt 0) then
      if py_ne rows (PInt 1000) then Ok (" ROWS " +:+ pystr rows) else Ok ""
    else Ok ""
  else Ok "".

(** The shell type of [create]: the statement that declares the type
    this function defines, the first time one of its functions is
    created.  The flag [_shell_created] is set on the type itself, which
    all its defining functions share. *)
Definition shell_type (h : heap) (self : pyobject)
  : result (list stmt * heap) :=
  match getattr_d self "_defining" PNone with
  | PNone => Ok ([], h)
  | PRef t =>
      if hasattr (h t) "_shell_created" then Ok ([], h)
      else
        let t' := setattr (h t) "_shell_created" (PBool true) in
        Ok ([Sql ("CREATE TYPE " +:+ qualname t')], <[t := t']> h)
  | _ => Raise AttributeError
  end.

(** The statement [CREATE FUNCTION] of [create]. *)
Definition create_function (self : pyobject) (newsrc : pyval)
  (volat leakproof strict secdef cost rows config src : string)
  : result string :=
  args ← (if hasattr self "allargs" then getattr self "allargs"
          else getattr self "arguments");
  returns ← getattr self "returns";
  language ← getattr self "language";
  Ok ("CREATE" +:+ (if truthy newsrc then " OR REPLACE" else "")
      +:+ " FUNCTION " +:+ qualname self +:+ "(" +:+ pystr args
      +:+ ") RETURNS " +:+ pystr returns +:+ nl +:+ "    LANGUAGE "
      +:+ pystr language +:+ volat +:+ leakproof +:+ strict +:+ secdef
      +:+ cost +:+ rows +:+ config +:+ nl +:+ "    AS " +:+ src).

(** The body of [create(self, newsrc=None)]. *)
Definition create_body (h : heap) (self : pyobject) (newsrc : pyval)
  : result (list stmt * heap) :=
  src ← src_clause self newsrc;
  volat ← volat_clause self;
  let leakproof := leakproof_clause self in
  let strict := flag_clause self "strict" " STRICT" in
  let secdef := flag_clause self "security_definer" " SECURITY DEFINER" in
  config ← config_clause self;
  cost ← cost_clause self;
  rows ← rows_clause self;
  '(stmts, h') ← shell_type h self;
  stmt ← create_function self newsrc volat leakproof strict secdef cost rows
           config src;
  Ok (stmts ++ [Sql stmt], h').

(** [create], as decorated:
    [@commentable @grantable @ownable def create]. *)
Definition create (h : heap) (self : pyobject) (newsrc : pyval)
  : result (list stmt * heap) :=
  '(stmts, h') ← create_body h self newsrc;
  Ok (commentable self (grantable self (ownable self stmts)), h').

Definition alter (h : heap) (self infunction : pyobject) (no_owner : bool)
  : result (list stmt * heap) :=
  '(stmts1, h') ←
    (if hasattr self "source" && hasattr infunction "source" then
       source ← getattr self "source";
       insource ← getattr infunction "source";
       if py_ne source insource then
         '(c, h') ← create h self insource;
         Ok ([Stmts c], h')
       else Ok ([], h)
     else Ok ([], h));
  stmts2 ←
    (if hasattr self "leakproof"
        && is_True (getattr_d self "leakproof" PNone) then
       if hasattr infunction "leakproof"
          && is_True (getattr_d infunction "leakproof" PNone) then
         ident ← Proc.identifier self;
         Ok [Sql ("ALTER FUNCTION " +:+ ident +:+ " LEAKPROOF")]
       else
         ident ← Proc.identifier self;
         Ok [Sql ("ALTER FUNCTION " +:+ ident +:+ " NOT LEAKPROOF")]
     else if hasattr infunction "leakproof"
             && is_True (getattr_d infunction "leakproof" PNone) then
       Ok [Sql ("ALTER FUNCTION " +:+ qualname self +:+ " LEAKPROOF")]
     else Ok []);
  Ok (stmts1 ++ stmts2 ++ [Stmts (base_alter self infunction no_owner)], h').

(** The attributes of a type that name its conversion functions. *)
Definition converters : list string := ["input"; "output"; "send"; "receive"].

(** The inner loop of [get_deps]: some attribute of [dep] among
    [converters] holds a name, and that name is the function's. *)
Definition names_as_converter (dep self : pyobject) : bool :=
  existsb (λ attr,
             let fname := getattr_d dep attr PNone in
             truthy fname && py_eq fname (PStr (qualname self)))
          converters.

(** [deps.remove(dep)] *)
Definition set_remove (dep : ref) (deps : gset ref) : result (gset ref) :=
  if decide (dep ∈ deps) then Ok (deps ∖ {[dep]}) else Raise KeyError.

(** One round of the loop [for dep in list(deps)]. *)
Definition get_deps_step (h : heap) (st : result (gset ref * pyobject))
  (dep : ref) : result (gset ref * pyobject) :=
  '(deps, self) ← st;
  if bool_decide (cls (h dep) = DbType) && names_as_converter (h dep) self
  then
    deps' ← set_remove dep deps;
    Ok (deps', setattr self "_defining" (PRef dep))
  else Ok (deps, self).

(** [get_deps]: [deps] is what [super().get_deps(db)] returned and
    [order] the order in which [list(deps)] enumerates it.  The
    function object is returned with the set, as the loop assigns to
    its attribute [_defining]. *)
Definition get_deps (h : heap) (self : pyobject) (deps : gset ref)
  (order : list ref) : result (gset ref * pyobject) :=
  foldl (get_deps_step h) (Ok (deps, self)) order.

Definition drop (self : pyobject) : list stmt :=
  if truthy (getattr_d self "_defining" PNone) then []
  else base_drop self.

End Function.
End Function.

(** ** [class ProcDict] *)

Module ProcDict.
Section ProcDict.
Context {lib : DbObjectLib}.

(** An entry of the input map: [None] or a map of attributes. *)
Abbreviation spec := (option (gmap string pyval)).

(** The attributes of a [Proc] that are properties: [setattr] on one of
    them raises.  [allprivs] is the one of [function.py]; [objtype] is
    the one modelled above. *)
Definition properties : list string := ["allprivs"; "objtype"].

(** Modelled from the spec: the constructor of [DbObject] called with
    keywords, which is not in the sources at hand; the object it makes
    carries the attributes of its key, here schema, name and
    arguments. *)
Definition new (c : pyclass) (schema name arguments : string) : pyobject :=
  PyObject c (list_to_map [("schema", PStr schema); ("name", PStr name);
                           ("arguments", PStr arguments)]).

(** [for attr in infunc: setattr(func, attr, infunc[attr])] *)
Definition set_attrs (func : pyobject) (infunc : gmap string pyval)
  : result pyobject :=
  if existsb (λ p, bool_decide (is_Some (infunc !! p))) properties
  then Raise AttributeError
  else Ok (PyObject (cls func) (infunc ∪ attrs func)).

(** [volatility[:1].lower()] *)
Definition first_lower (v : pyval) : result pyval :=
  match v with
  | PStr s => Ok (PStr (str_lower (str_slice s None (Some 1%Z))))
  | PList _ => Raise AttributeError
  | _ => Raise TypeError
  end.

(** The body of the loop of [from_map], for the entry [key] of
    [infuncs]: the key under which the object is stored, and the
    object. *)
Definition from_map_entry (schema : string) (key : string) (infunc : spec)
  : result (string * string * string * pyobject) :=
  let '(objtype, spc, fnc) := str_partition key " " in
  if negb (bool_decide (spc = " "))
     || negb (bool_decide (objtype ∈ ["function"; "aggregate"]))
  then Raise KeyError
  else
    let paren := str_find fnc "(" in
    if (paren =? -1)%Z
       || negb (bool_decide (str_slice fnc (Some (-1)%Z) None = ")"))
    then Raise KeyError
    else
      let arguments := str_slice fnc (Some (paren + 1)%Z) (Some (-1)%Z) in
      let fnc := str_slice fnc None (Some paren) in
      let func :=
        if bool_decide (objtype = "function")
        then new Function schema fnc arguments
        else setattr (new Aggregate schema fnc arguments)
                     "language" (PStr "internal") in
      match infunc with
      | None => Raise ValueError
      | Some infunc =>
          if bool_decide (infunc = ∅) then Raise ValueError
          else
            func ← set_attrs func infunc;
            func ← (if hasattr func "volatility" then
                      volatility ← getattr func "volatility";
                      v ← first_lower volatility;
                      Ok (setattr func "volatility" v)
                    else Ok func);
            _ ← (if bool_decide (cls func = Function) then
                   let src := hasattr func "source" in
                   let obj := hasattr func "obj_file" in
                   if (src && obj) || negb (src || obj)
                   then Raise ValueError
                   else Ok ()
                 else Ok ());
            func ← (match infunc !! "privileges" with
                    | Some privs =>
                        owner ← getattr func "owner";
                        p ← privileges_from_map privs Proc.allprivs owner;
                        Ok (setattr func "privileges" p)
                    | None => Ok func
                    end);
            Ok (schema, fnc, arguments, func)
      end.

(** [from_map(self, schema, infuncs)]: the entries are gone through in
    the order of the map, and the first one that raises ends the
    loading. *)
Definition from_map (self : gmap (string * string * string) pyobject)
  (schema : string) (infuncs : list (string * spec))
  : result (gmap (string * string * string) pyobject) :=
  foldl (λ st entry,
           self ← st;
           '(sch, fnc, arguments, func) ←
             from_map_entry schema entry.1 entry.2;
           Ok (<[(sch, fnc, arguments) := func]> self))
        (Ok self) infuncs.

End ProcDict.
End ProcDict.

(** ** [class Trigger] *)

Module Trigger.
Section Trigger.
Context {lib : DbObjectLib}.

(** [self._table.qualname()] *)
Definition table_qualname (h : heap) (self : pyobject) : result string :=
  table ← getattr self "_table";
  match table with
  | PRef t => Ok (qualname (h t))
  | _ => Raise AttributeError
  end.

(** [quote_id(self.name)] *)
Definition quoted_name (self : pyobject) : result string :=
  name ← getattr self "name";
  match name with
  | PStr s => Ok (quote_id s)
  | _ => Raise TypeError
  end.

Definition identifier (h : heap) (self : pyobject) : result string :=
  name ← quoted_name self;
  table ← table_qualname h self;
  Ok (name +:+ " ON " +:+ table).

(** The body of [create(self)]. *)
Definition create_body (h : heap) (self : pyobject) : result (list stmt) :=
  let '(constr, defer) :=
    if hasattr self "constraint"
       && truthy (getattr_d self "constraint" PNone) then
      let defer :=
        if hasattr self "deferrable"
           && truthy (getattr_d self "deferrable" PNone)
        then "DEFERRABLE " else "" in
      let defer :=
        if hasattr self "initially_deferred"
           && truthy (getattr_d self "initially_deferred" PNone)
        then defer +:+ "INITIALLY DEFERRED" else defer in
      let defer :=
        if bool_decide (defer = "") then defer
        else nl +:+ "    " +:+ defer in
      ("CONSTRAINT ", defer)
    else ("", "") in
  events ← getattr self "events";
  evl ← py_iter events;
  let evts := str_upper (str_join " OR " evl) in
  evts ← (if hasattr self "columns" then
            upd ← py_contains "update" events;
            if (upd : bool) then
              columns ← getattr self "columns";
              cols ← py_iter columns;
              Ok (str_replace evts "UPDATE"
                    ("UPDATE OF " +:+ str_join ", " cols))
            else Ok evts
          else Ok evts);
  cond ← (if hasattr self "condition" then
            condition ← getattr self "condition";
            Ok (nl +:+ "    WHEN (" +:+ pystr condition +:+ ")")
          else Ok "");
  name ← quoted_name self;
  timing ← getattr self "timing";
  timing ← py_upper timing;
  table ← table_qualname h self;
  level ← getattr self "level";
  level ← py_upper level;
  procedure ← getattr self "procedure";
  Ok [Sql ("CREATE " +:+ constr +:+ "TRIGGER " +:+ name +:+ nl +:+ "    "
           +:+ timing +:+ " " +:+ evts +:+ " ON " +:+ table +:+ defer
           +:+ nl +:+ "    FOR EACH " +:+ level +:+ cond +:+ nl
           +:+ "    EXECUTE PROCEDURE " +:+ pystr procedure)].

(** [create], as decorated: [@commentable def create]. *)
Definition create (h : heap) (self : pyobject) : result (list stmt) :=
  stmts ← create_body h self;
  Ok (commentable self stmts).

(** The attributes [diff_map] compares one by one. *)
Definition compared : list string :=
  ["constraint"; "deferrable"; "initially_deferred"; "update";
   "condition"; "procedure"; "timing"; "level"].

(** One round of the loop [for attr in attrs] of [diff_map], on the
    flag [same] and the trigger. *)
Definition diff_attr (intrg : pyobject) (st : bool * pyobject)
  (attr : string) : bool * pyobject :=
  let '(same, self) := st in
  if py_ne (getattr_d self attr PNone) (getattr_d intrg attr PNone)
  then (false, setattr self attr (getattr_d intrg attr PNone))
  else (same, self).

(** [diff_map(self, intrg)]: the trigger is returned with the
    statements, as the method assigns the attributes of [intrg] to
    it. *)
Definition diff_map (h : heap) (self intrg : pyobject)
  : result (pyobject * list stmt) :=
  let '(same, self) := foldl (diff_attr intrg) (true, self) compared in
  events ← getattr self "events";
  evs ← py_set events;
  inevents ← getattr intrg "events";
  inevs ← py_set inevents;
  let '(same, self) :=
    if bool_decide (evs ≠ inevs)
    then (false, setattr self "events" inevents)
    else (same, self) in
  stmts ← (if negb same then
             ident ← identifier h self;
             c ← create h self;
             Ok [Sql ("DROP TRIGGER " +:+ ident); Stmts c]
           else Ok []);
  Ok (self, stmts ++ [Stmts (diff_privileges self intrg);
                      Stmts (diff_description self intrg)]).

(** [db.tables[k]], [db.functions[k]] *)
Definition lookup_key {K} `{Countable K} (m : gmap K ref) (k : K)
  : result ref :=
  match m !! k with
  | Some r => Ok r
  | None => Raise KeyError
  end.

(** The value of an attribute that is part of a key: the keys of the
    dictionaries of [db] are tuples of strings, so any other value is
    not among them. *)
Definition key_part (v : pyval) : result string :=
  match v with
  | PStr s => Ok s
  | PList _ => Raise TypeError
  | _ => Raise KeyError
  end.

Definition get_implied_deps (db : database) (self : pyobject)
  : result (gset ref) :=
  let deps := base_implied_deps db self in
  schema ← getattr self "schema";
  table ← getattr self "table";
  sch ← key_part schema;
  tbl ← key_part table;
  t ← lookup_key (tables db) (sch, tbl);
  let deps := deps ∪ {[t]} in
  if hasattr self "_iscfg" then Ok deps
  else
    procedure ← getattr self "procedure";
    match procedure, schema with
    | PStr procedure, PStr schema =>
        let '(fschema, fname) := split_schema_obj procedure schema in
        if negb (str_startswith fname "tsvector_update_trigger") then
          f ← lookup_key (functions db) (fschema, fname, "");
          Ok (deps ∪ {[f]})
        else Ok deps
    | _, _ => Raise TypeError
    end.

End Trigger.
End Trigger.

(** ** [class OperatorFamily] *)

Module OperatorFamily.
Section OperatorFamily.
Context {lib : DbObjectLib}.

(** [__init__(self, name, schema, index_method, description, owner,
    oid=None)].  Modelled from the spec: the constructor of
    [DbSchemaObject] and [_init_own_privs], which are not in the
    sources at hand, keep the name, the schema, the comment and the
    owner given, under those names, with no privileges. *)
Definition new (name schema index_method description owner oid : pyval)
  : pyobject :=
  PyObject OperatorFamily
    (list_to_map [("name", name); ("schema", schema);
                  ("description", description); ("owner", owner);
                  ("privileges", PList []);
                  ("index_method", index_method); ("oid", oid)]).

Definition extern_key (self : pyobject) : result string :=
  name ← getattr self "name";
  index_method ← getattr self "index_method";
  Ok (str_lower (objtype (cls self)) +:+ " " +:+ pystr name +:+ " using "
      +:+ pystr index_method).

Definition identifier (self : pyobject) : result string :=
  index_method ← getattr self "index_method";
  Ok (qualname self +:+ " USING " +:+ pystr index_method).

End OperatorFamily.
End OperatorFamily.

(** ** [class OperatorFamilyDict] *)

Module OperatorFamilyDict.
Section OperatorFamilyDict.
Context {lib : DbObjectLib}.

(** The body of the loop of [from_map], for the entry [key] of
    [inopfams]. *)
Definition from_map_entry (schema : string) (key : string)
  (inopfam : option (gmap string pyval))
  : result (string * string * string * pyobject) :=
  if negb (str_startswith key "operator family ")
     || negb (str_contains " using " key)
  then Raise KeyError
  else
    let pos := str_rfind key " using " in
    let opf := str_slice key (Some 16%Z) (Some pos) in
    let idx := str_slice key (Some (pos + 7)%Z) None in
    match inopfam with
    | None => Raise AttributeError
    | Some inopfam =>
        let opfam :=
          OperatorFamily.new (PStr opf) (PStr schema) (PStr idx)
            (default PNone (inopfam !! "description"))
            (default PNone (inopfam !! "owner")) PNone in
        let inopfam := delete "owner" (delete "description" inopfam) in
        let opfam :=
          match inopfam !! "oldname" with
          | Some oldname => setattr opfam "oldname" oldname
          | None => opfam
          end in
        Ok (schema, opf, idx, opfam)
    end.

Definition from_map (self : gmap (string * string * string) pyobject)
  (schema : string) (inopfams : list (string * option (gmap string pyval)))
  : result (gmap (string * string * string) pyobject) :=
  foldl (λ st entry,
           self ← st;
           '(sch, opf, idx, opfam) ←
             from_map_entry schema entry.1 entry.2;
           Ok (<[(sch, opf, idx) := opfam]> self))
        (Ok self) inopfams.

End OperatorFamilyDict.
End OperatorFamilyDict.

(** ** Statements about runs of the code *)

(** [dep] is a type that names the function [self] as one of its
    conversion functions: the condition under which the loop of
    [Function.get_deps] drops [dep]. *)
Definition designates {lib : DbObjectLib} (h : heap) (dep : ref)
  (self : pyobject) : bool :=
  bool_decide (cls (h dep) = DbType)
  && Function.names_as_converter (h dep) self.

(** A run of [Function.create] on one function after the other, on the
    heap the one before has left. *)
Fixpoint create_all {lib : DbObjectLib} (h : heap)
  (calls : list (pyobject * pyval)) : result (list (list stmt) * heap) :=
  match calls with
  | [] => Ok ([], h)
  | (f, newsrc) :: calls' =>
      '(stmts, h') ← Function.create h f newsrc;
      '(rest, h'') ← create_all h' calls';
      Ok (stmts :: rest, h'')
  end.



(** The attributes of an entry of [ProcDict.from_map], other than
    [source] and [obj_file], load: none of them is a property, the
    volatility is a string if there is one, and privileges come with
    an owner and are accepted by [privileges_from_map]. *)
Definition loadable {lib : DbObjectLib} (m : gmap string pyval) : Prop :=
  m !! "allprivs" = None
  ∧ m !! "objtype" = None
  ∧ (∀ v, m !! "volatility" = Some v → ∃ s, v = PStr s)
  ∧ (∀ p, m !! "privileges" = Some p →
          ∃ o, m !! "owner" = Some o
               ∧ is_ok (privileges_from_map p Proc.allprivs o) = true).

(** The key of a procedure: the kind word, the name, and the arguments
    in parentheses. *)
Definition proc_key (kind name args : string) : string :=
  kind +:+ " " +:+ name +:+ "(" +:+ args +:+ ")".

(** Both or none of [source] and [obj_file] are among the attributes
    of an entry. *)
Definition both_or_neither (m : gmap string pyval) : bool :=
  let src := bool_decide (is_Some (m !! "source")) in
  let obj := bool_decide (is_Some (m !! "obj_file")) in
  (src && obj) || negb (src || obj).

(** The statement [CREATE FUNCTION] that [Function.create] makes, with
    its clauses: [create] without the shell type and without the
    statements of the decorators. *)
Definition function_stmt {lib : DbObjectLib} (self : pyobject)
  (newsrc : pyval) : result string :=
  src ← Function.src_clause self newsrc;
  volat ← Function.volat_clause self;
  config ← Function.config_clause self;
  cost ← Function.cost_clause self;
  rows ← Function.rows_clause self;
  Function.create_function self newsrc volat
    (Function.leakproof_clause self)
    (Function.flag_clause self "strict" " STRICT")
    (Function.flag_clause self "security_definer" " SECURITY DEFINER")
    cost rows config src.

(** The statements the decorators of [Function.create] add. *)
Definition trailing {lib : DbObjectLib} (self : pyobject) : list stmt :=
  owner_stmts self ++ grant_stmts self ++ comment_stmts self.

(** The compared attributes of two triggers are equal, as Python has
    it. *)
Definition same_attrs (self intrg : pyobject) : bool :=
  forallb (λ a, py_eq (getattr_d self a PNone) (getattr_d intrg a PNone))
          Trigger.compared.

(** ** A sample library and sample objects *)

Definition sample_qualify (sch name : pyval) : string :=
  match sch, name with
  | PStr sch, PStr name =>
      if bool_decide (sch = "public") then name else sch +:+ "." +:+ name
  | _, _ => "?"
  end.

Definition sample_lib : DbObjectLib := {|
  quote_id := id;
  qualify := sample_qualify;
  repr := λ _, "<object>";
  split_schema_obj := λ obj sch, (sch, obj);
  comment_stmts := λ _, [];
  owner_stmts := λ _, [];
  grant_stmts := λ _, [];
  base_alter := λ _ _ _, [];
  base_drop := λ o, [Sql ("DROP " +:+ objtype (cls o) +:+ " "
                          +:+ sample_qualify (getattr_d o "schema" PNone)
                                             (getattr_d o "name" PNone))];
  base_map := λ o _ _, attrs o;
  diff_privileges := λ _ _, [];
  diff_description := λ _ _, [];
  base_implied_deps := λ _ _, ∅;
  privileges_from_map := λ p _ _, Ok p
|}.

Definition object (c : pyclass) (l : list (string * pyval)) : pyobject :=
  PyObject c (list_to_map l).

(** A heap with nothing of interest in it. *)
Definition no_objects : heap := λ _, object OtherClass [].

(** The function [f1(integer)], leakproof, and the input function
    [t_in(cstring)] of the type at reference 7. *)
Definition sample_function : pyobject :=
  object Function
    [("schema", PStr "public"); ("name", PStr "f1");
     ("arguments", PStr "integer"); ("returns", PStr "integer");
     ("language", PStr "sql"); ("source", PStr "select 1");
     ("volatility", PStr "i"); ("cost", PInt 5);
     ("leakproof", PBool true)].

Definition sample_in_function : pyobject :=
  object Function
    [("schema", PStr "public"); ("name", PStr "t_in");
     ("arguments", PStr "cstring"); ("returns", PStr "t");
     ("language", PStr "c"); ("source", PStr "t_in");
     ("obj_file", PStr "$libdir/t"); ("volatility", PStr "i");
     ("cost", PInt 1); ("_defining", PRef 7)].

(** The output function [t_out(t)] of the type at reference 7. *)
Definition sample_out_function : pyobject :=
  object Function
    [("schema", PStr "public"); ("name", PStr "t_out");
     ("arguments", PStr "t"); ("returns", PStr "cstring");
     ("language", PStr "c"); ("source", PStr "t_out");
     ("obj_file", PStr "$libdir/t"); ("volatility", PStr "i");
     ("_defining", PRef 7)].

(** The conversion function [t_conv], and a heap with two types that
    both name it: the type at reference 7 as its output function and the
    type at reference 8 as its input function. *)
Definition sample_conv : pyobject :=
  object Function
    [("schema", PStr "public"); ("name", PStr "t_conv");
     ("arguments", PStr "t1"); ("returns", PStr "t2");
     ("language", PStr "c"); ("source", PStr "t_conv");
     ("obj_file", PStr "$libdir/t")].

Definition sample_types : heap :=
  <[7%positive := object DbType [("schema", PStr "public");
                                 ("name", PStr "t1");
                                 ("input", PStr "t1_in");
                                 ("output", PStr "t_conv")]]>
  (<[8%positive := object DbType [("schema", PStr "public");
                                  ("name", PStr "t2");
                                  ("input", PStr "t_conv");
                                  ("output", PStr "t2_out")]]>
   no_objects).

Definition sample_entry : gmap string pyval :=
  list_to_map [("language", PStr "sql"); ("returns", PStr "integer");
               ("volatility", PStr "IMMUTABLE");
               ("source", PStr "select 1")].

(** An entry with both a source and an object file. *)
Definition sample_both_entry : gmap string pyval :=
  list_to_map [("language", PStr "c"); ("returns", PStr "integer");
               ("source", PStr "f"); ("obj_file", PStr "$libdir/f")].

(** The entry [function f(integer)] with an attribute [name]. *)
Definition sample_renamed_entry : gmap string pyval :=
  list_to_map [("name", PStr "g"); ("language", PStr "sql");
               ("returns", PStr "integer"); ("source", PStr "select 1")].


(** A heap with the table [t1] at reference 1. *)
Definition sample_tables : heap :=
  <[1%positive := object OtherClass [("schema", PStr "public");
                                     ("name", PStr "t1")]]> no_objects.

Definition sample_trigger : pyobject :=
  object Trigger
    [("schema", PStr "public"); ("table", PStr "t1"); ("name", PStr "tr1");
     ("timing", PStr "before"); ("events", PList ["insert"; "update"]);
     ("level", PStr "row"); ("procedure", PStr "f_audit");
     ("_table", PRef 1)].


(** The desired trigger [tr1]: after the insertions and updates, not
    before them; and the same trigger as [sample_trigger] with its
    events in another order. *)
Definition sample_after_trigger : pyobject :=
  object Trigger
    [("schema", PStr "public"); ("table", PStr "t1"); ("name", PStr "tr1");
     ("timing", PStr "after"); ("events", PList ["insert"; "update"]);
     ("level", PStr "row"); ("procedure", PStr "f_audit")].

Definition sample_reordered_trigger : pyobject :=
  object Trigger
    [("schema", PStr "public"); ("table", PStr "t1"); ("name", PStr "tr1");
     ("timing", PStr "before"); ("events", PList ["update"; "insert"]);
     ("level", PStr "row"); ("procedure", PStr "f_audit")].

(** * More of the code *)

(** ** [ProcDict.find] and [OperatorFamilyDict.find]

    [split_schema_obj] is called here with the name alone, its second
    argument left to its default: [split1] stands for that call. *)

Definition ProcDict_find (split1 : string → string * string)
  (self : gmap (string * string * string) pyobject)
  (func : string) (args : list string) : option pyobject :=
  let '(schema, name) := split1 func in
  self !! (schema, name, str_join ", " args).

Definition OperatorFamilyDict_find (split1 : string → string * string)
  (self : gmap (string * string * string) pyobject)
  (obj meth : string) : option pyobject :=
  let '(schema, name) := split1 obj in
  self !! (schema, name, meth).

(** ** [TriggerDict.from_map] *)

#[global] Instance pyval_countable : Countable pyval.
Proof.
  refine (inj_countable'
    (λ v, match v with
          | PNone => inl ()
          | PBool b => inr (inl b)
          | PInt z => inr (inr (inl z))
          | PStr s => inr (inr (inr (inl s)))
          | PList l => inr (inr (inr (inr (inl l))))
          | PRef r => inr (inr (inr (inr (inr r))))
          end)
    (λ x, match x with
          | inl () => PNone
          | inr (inl b) => PBool b
          | inr (inr (inl z)) => PInt z
          | inr (inr (inr (inl s))) => PStr s
          | inr (inr (inr (inr (inl l)))) => PList l
          | inr (inr (inr (inr (inr r)))) => PRef r
          end) _).
  by intros [].
Defined.

Module TriggerDict.

(** Modelled from the spec: the constructor of [DbObject] called with
    keywords, which is not in the sources at hand; the object it makes
    carries the attributes of its key, here schema, table and name. *)
Definition new (schema table : pyval) (name : string) : pyobject :=
  PyObject Trigger (list_to_map [("schema", schema); ("table", table);
                                 ("name", PStr name)]).

(** [for attr, val in list(intrig.items()): setattr(trig, attr, val)].
    [props] are the names that the class binds to properties, which
    are in [DbSchemaObject] and not in the sources at hand: [setattr]
    on one of them raises. *)
Definition set_attrs (props : list string) (trig : pyobject)
  (intrig : gmap string pyval) : result pyobject :=
  if existsb (λ p, bool_decide (is_Some (intrig !! p))) props
  then Raise AttributeError
  else Ok (PyObject (cls trig) (intrig ∪ attrs trig)).

(** The body of the loop of [from_map], for the entry [trg] of
    [intriggers]: the key under which the trigger is stored, and the
    trigger. *)
Definition from_map_entry (props : list string) (table : pyobject)
  (trg : string) (intrig : option (gmap string pyval))
  : result (pyval * pyval * string * pyobject) :=
  match intrig with
  | None => Raise ValueError
  | Some intrig =>
      if bool_decide (intrig = ∅) then Raise ValueError
      else
        schema ← getattr table "schema";
        name ← getattr table "name";
        trig ← set_attrs props (new schema name trg) intrig;
        let trig :=
          if negb (hasattr trig "level")
          then setattr trig "level" (PStr "statement") else trig in
        let trig :=
          match intrig !! "oldname" with
          | Some oldname => setattr trig "oldname" oldname
          | None => trig
          end in
        let trig :=
          match intrig !! "description" with
          | Some description => setattr trig "description" description
          | None => trig
          end in
        Ok (schema, name, trg, trig)
  end.

Definition from_map (props : list string)
  (self : gmap (pyval * pyval * string) pyobject) (table : pyobject)
  (intriggers : list (string * option (gmap string pyval)))
  : result (gmap (pyval * pyval * string) pyobject) :=
  foldl (λ st entry,
           self ← st;
           '(sch, tbl, trg, trig) ←
             from_map_entry props table entry.1 entry.2;
           Ok (<[(sch, tbl, trg) := trig]> self))
        (Ok self) intriggers.

End TriggerDict.

(** The specification of a trigger with no level, as a map has it. *)
Definition sample_trigger_entry : gmap string pyval :=
  list_to_map [("timing", PStr "before"); ("events", PList ["insert"]);
               ("procedure", PStr "f_audit()")].

(** ** [ProcDict.link_refs]: the event triggers *)

(** An event trigger, as [link_refs] reads it: its name and the
    procedure it executes. *)
Module EventTrigger.
Record t : Type := Make { name : string; procedure : string }.
End EventTrigger.

(** [(sch, fnc[:-2], '')]: the key of the function that the event
    trigger executes, once [split_schema_obj], with its default schema,
    has split its procedure. *)
Definition executed_function (split1 : string → string * string)
  (evttrg : EventTrigger.t) : string * string * string :=
  let '(sch, fnc) := split1 (EventTrigger.procedure evttrg) in
  (sch, str_slice fnc None (Some (-2)%Z), "").

(** One round of the loop [for key in dbeventtrigs] of [link_refs]. *)
Definition link_event_trigger (split1 : string → string * string)
  (self : gmap (string * string * string) pyobject)
  (evttrg : EventTrigger.t)
  : result (gmap (string * string * string) pyobject) :=
  let key := executed_function split1 evttrg in
  match self !! key with
  | None => Raise KeyError
  | Some func =>
      let func :=
        if negb (hasattr func "event_triggers")
        then setattr func "event_triggers" (PList []) else func in
      event_triggers ← getattr func "event_triggers";
      match event_triggers with
      | PList l =>
          Ok (<[key := setattr func "event_triggers"
                         (PList (l ++ [EventTrigger.name evttrg]))]> self)
      | _ => Raise AttributeError
      end
  end.

(** The loop [for key in dbeventtrigs] of [link_refs], on the event
    triggers in the order of the dictionary. *)
Definition link_event_triggers (split1 : string → string * string)
  (self : gmap (string * string * string) pyobject)
  (dbeventtrigs : list EventTrigger.t)
  : result (gmap (string * string * string) pyobject) :=
  foldl (λ st evttrg, self ← st; link_event_trigger split1 self evttrg)
        (Ok self) dbeventtrigs.

(** The names of the event triggers that execute the function of key
    [k], in the order of the dictionary. *)
Definition executing (split1 : string → string * string)
  (dbeventtrigs : list EventTrigger.t) (k : string * string * string)
  : list string :=
  EventTrigger.name
    <$> filter (λ e, executed_function split1 e = k) dbeventtrigs.

(** A function with the event triggers [l] linked to it. *)
Definition linked (l : list string) (func : pyobject) : pyobject :=
  match l with
  | [] => func
  | _ => setattr func "event_triggers" (PList l)
  end.

(** The functions of a database, [f_audit()] alone, two event triggers
    that execute it, and [split_schema_obj] with the default schema
    [public], for names that have no schema. *)
Definition sample_split (obj : string) : string * string := ("public", obj).

Definition sample_functions : gmap (string * string * string) pyobject :=
  {[ ("public", "f_audit", "") :=
       object Function [("schema", PStr "public"); ("name", PStr "f_audit");
                        ("arguments", PStr "")] ]}.

Definition sample_event_triggers : list EventTrigger.t :=
  [EventTrigger.Make "et1" "f_audit()"; EventTrigger.Make "et2" "f_audit()"].

(** ** [TriggerDict._from_catalog] *)

Definition EXEC_PROC : string := "EXECUTE PROCEDURE ".
Definition EVENT_TYPES : list string :=
  ["INSERT"; "UPDATE"; "DELETE"; "TRUNCATE"].

(** [s.index(sub, start)], and [s.index(sub)] without a start. *)
Definition str_index (s sub : string) (start : option Z) : result Z :=
  let a := clamp (len s) start 0 in
  match find_list (chars sub) (drop (Z.to_nat a) (chars s)) with
  | Some i => Ok (a + Z.of_nat i)%Z
  | None => Raise ValueError
  end.

(** What the body of the loop of [_from_catalog] raises: an exception
    of [pyexc], or [UnboundLocalError] when [evtstart] is read and no
    round of the loops on the timings has assigned it. *)
Inductive catalog_exc : Type :=
| UnboundLocalError
| Exc (e : pyexc).

Inductive catalog_result (A : Type) : Type :=
| Parsed (a : A)
| Failed (e : catalog_exc).
Arguments Parsed {A} a.
Arguments Failed {A} e.

Module TriggerCatalog.

(** The timings that [_from_catalog] looks for, in the order of its
    loop. *)
Definition timings : list string := ["BEFORE"; "AFTER"; "INSTEAD OF"].

(** One round of the loop [for timing in ...], on the trigger and the
    local variable [evtstart], which is [None] until it is assigned.
    [definition.index(timspc)] is evaluated where [timspc] occurs, so
    it is the position that [find] returns. *)
Definition timing_round (definition : string) (st : pyobject * option Z)
  (timing : string) : pyobject * option Z :=
  let timspc := timing +:+ " " in
  if str_contains timspc definition
  then (setattr st.1 "timing" (PStr (str_lower timing)),
        Some (str_find definition timspc + len timspc)%Z)
  else st.

(** The rest of the body, from [evtend = ...] on, once [evtstart] is
    assigned. *)
Definition parse_from (definition : string) (trig : pyobject) (evtstart : Z)
  : result pyobject :=
  evtend ← str_index definition " ON " (Some evtstart);
  let events := str_slice definition (Some evtstart) (Some evtend) in
  let trig :=
    setattr trig "events"
      (PList (str_lower
                <$> filter (λ evt, str_contains evt events = true)
                      EVENT_TYPES)) in
  let trig :=
    setattr trig "level"
      (PStr (if str_contains "FOR EACH ROW" definition
             then "row" else "statement")) in
  trig ← (if str_contains "WHEN (" definition then
            i ← str_index definition "WHEN (" None;
            j ← str_index definition ") EXECUTE PROCEDURE" None;
            Ok (setattr trig "condition"
                  (PStr (str_slice definition (Some (i + 6)%Z) (Some j))))
          else Ok trig);
  k ← str_index definition EXEC_PROC None;
  let trig :=
    setattr trig "procedure"
      (PStr (str_slice definition (Some (k + len EXEC_PROC)%Z) None)) in
  Ok (PyObject (cls trig) (delete "definition" (attrs trig))).

(** The body of the loop [for trig in self.fetch()], up to [del
    trig.definition], for a trigger whose attribute [definition] is the
    text [definition].  [evtstart] is the local variable of that name
    as the round before has left it, [None] in the first round; it is
    returned with the trigger. *)
Definition from_catalog_entry (definition : string) (trig : pyobject)
  (evtstart : option Z) : catalog_result (pyobject * option Z) :=
  let '(trig, evtstart) :=
    foldl (timing_round definition) (trig, evtstart) timings in
  match evtstart with
  | None => Failed UnboundLocalError
  | Some start =>
      match parse_from definition trig start with
      | Ok trig => Parsed (trig, evtstart)
      | Raise e => Failed (Exc e)
      end
  end.

End TriggerCatalog.

(** The definition of a trigger as the catalog gives it, and the
    trigger fetched with it. *)
Definition sample_definition : string :=
  "CREATE TRIGGER tr1 BEFORE INSERT OR UPDATE ON t1 FOR EACH ROW EXECUTE PROCEDURE f_audit()".

Definition sample_fetched : pyobject :=
  object Trigger
    [("schema", PStr "public"); ("table", PStr "t1"); ("name", PStr "tr1");
     ("definition", PStr sample_definition)].

(** * Properties *)

(** ** Python values *)

Lemma py_eq_refl v : py_eq v v = true.
Proof.
  unfold py_eq. destruct (as_num v) eqn:E.
  - apply Z.eqb_refl.
  - by apply bool_decide_eq_true.
Qed.

Lemma py_ne_refl v : py_ne v v = false.
Proof. unfold py_ne. by rewrite py_eq_refl. Qed.



Lemma hasattr_true o a : hasattr o a = true ↔ is_Some (attrs o !! a).
Proof. unfold hasattr. apply bool_decide_eq_true. Qed.

Lemma hasattr_false o a : hasattr o a = false ↔ attrs o !! a = None.
Proof.
  unfold hasattr. rewrite bool_decide_eq_false. symmetry. apply eq_None_not_Some.
Qed.

Lemma hasattr_Some o a v : attrs o !! a = Some v → hasattr o a = true.
Proof. intros H. apply hasattr_true. eauto. Qed.

Lemma getattr_Some o a v : attrs o !! a = Some v → getattr o a = Ok v.
Proof. unfold getattr. by intros ->. Qed.

Lemma getattr_d_Some o a v d : attrs o !! a = Some v → getattr_d o a d = v.
Proof. unfold getattr_d. by intros ->. Qed.

Lemma getattr_d_None o a d : attrs o !! a = None → getattr_d o a d = d.
Proof. unfold getattr_d. by intros ->. Qed.

(** ** [Function.drop] *)

Section drop.
Context {lib : DbObjectLib}.

(** C3.  A function marked as defining a type ([_defining] holds the
    type) is dropped with no statement at all; a function that is not
    marked (no attribute [_defining], or [None] in it) is dropped as
    the base class drops an object. *)
Theorem drop_defining (f : pyobject) :
  (∀ t, attrs f !! "_defining" = Some (PRef t) → Function.drop f = [])
  ∧ (attrs f !! "_defining" = None ∨ attrs f !! "_defining" = Some PNone →
     Function.drop f = base_drop f).
Proof.
  split.
  - intros t Ht. unfold Function.drop. by rewrite (getattr_d_Some _ _ _ _ Ht).
  - intros [Hn|Hn]; unfold Function.drop.
    + by rewrite (getattr_d_None _ _ _ Hn).
    + by rewrite (getattr_d_Some _ _ _ _ Hn).
Qed.

End drop.

Lemma drop_defining_witness :
  Function.drop (lib := sample_lib) sample_in_function = []
  ∧ Function.drop (lib := sample_lib) sample_function
    = [Sql "DROP FUNCTION f1"].
Proof.
  split.
  - apply (proj1 (drop_defining (lib := sample_lib) sample_in_function)
             7%positive).
    reflexivity.
  - apply (proj2 (drop_defining (lib := sample_lib) sample_function)).
    left. reflexivity.
Defined.

(** ** Default cost and rows *)



Section cost.
Context {lib : DbObjectLib}.





End cost.



(** ** Python strings *)

Lemma chars_app s1 s2 : chars (s1 +:+ s2) = chars s1 ++ chars s2.
Proof. induction s1 as [|c s1 IH]; simpl; [done|]. by rewrite IH. Qed.

Lemma str_chars s : str (chars s) = s.
Proof. apply String.string_of_list_ascii_of_string. Qed.

Lemma chars_str l : chars (str l) = l.
Proof. apply String.list_ascii_of_string_of_list_ascii. Qed.

Lemma chars_inj s1 s2 : chars s1 = chars s2 → s1 = s2.
Proof. intros H. by rewrite <- (str_chars s1), H, str_chars. Qed.

(** [find_list] returns the position of an occurrence. *)
Lemma find_list_Some sub l i :
  find_list sub l = Some i →
  l = take i l ++ sub ++ drop (i + length sub) l.
Proof.
  revert i. induction l as [|c l IH]; intros i; simpl.
  - destruct (decide (sub `prefix_of` [])) as [[k Hk]|]; [|done].
    intros [= <-]. symmetry in Hk. apply app_eq_nil in Hk as [-> ->]. done.
  - destruct (decide (sub `prefix_of` c :: l)) as [[k Hk]|].
    + intros [= <-]. simpl. rewrite Hk at 1. f_equal.
      rewrite Hk. by rewrite drop_app_length.
    + destruct (find_list sub l) as [j|] eqn:Ej; [|done].
      intros [= <-]. simpl. f_equal. by apply IH.
Qed.

(** It finds an occurrence when there is one. *)
Lemma find_list_occurs sub a b : is_Some (find_list sub (a ++ sub ++ b)).
Proof.
  induction a as [|c a IH]; simpl.
  - destruct (sub ++ b) as [|c l] eqn:E; simpl.
    + destruct (decide (sub `prefix_of` [])) as [|Hn]; [by eexists|].
      destruct Hn. apply app_eq_nil in E as [-> ->]. by exists [].
    + destruct (decide (sub `prefix_of` c :: l)) as [|Hn]; [by eexists|].
      destruct Hn. exists b. done.
  - destruct (decide _); [by eexists|].
    destruct IH as [i ->]. by eexists.
Qed.

(** [rfind_list] returns the position of an occurrence as well, and no
    occurrence starts after it. *)
Lemma rfind_list_Some sub l i :
  rfind_list sub l = Some i →
  l = take i l ++ sub ++ drop (i + length sub) l.
Proof.
  revert i. induction l as [|c l IH]; intros i; simpl.
  - destruct (decide (sub = [])) as [->|]; [|done]. by intros [= <-].
  - destruct (rfind_list sub l) as [j|] eqn:Ej.
    + intros [= <-]. simpl. f_equal. by apply IH.
    + destruct (decide (sub `prefix_of` c :: l)) as [[k Hk]|]; [|done].
      intros [= <-]. simpl. rewrite Hk at 1. f_equal.
      rewrite Hk. by rewrite drop_app_length.
Qed.

Lemma rfind_list_last sub a b :
  ∃ i, rfind_list sub (a ++ sub ++ b) = Some i ∧ length a ≤ i.
Proof.
  induction a as [|c a IH]; simpl.
  - destruct (sub ++ b) as [|c l] eqn:E; simpl.
    + apply app_eq_nil in E as [-> ->]. exists 0. by rewrite decide_True.
    + destruct (rfind_list sub l) as [j|]; [exists (S j); split; [done|lia]|].
      exists 0. rewrite decide_True; [done|]. exists b. done.
  - destruct IH as (i & -> & Hi). exists (S i). split; [done|lia].
Qed.

(** [s[:i]], [s[i:]] and [s[i:j]] for bounds within the string. *)
Lemma str_slice_to s (i : nat) :
  i ≤ length (chars s) →
  str_slice s None (Some (Z.of_nat i)) = str (take i (chars s)).
Proof.
  intros Hi. unfold str_slice, clamp, len. simpl.
  destruct (Z.ltb_spec (Z.of_nat i) 0); [lia|].
  rewrite Z.min_l by lia. rewrite Z.sub_0_r, Nat2Z.id. done.
Qed.

Lemma str_slice_from s (i : nat) :
  i ≤ length (chars s) →
  str_slice s (Some (Z.of_nat i)) None = str (drop i (chars s)).
Proof.
  intros Hi. unfold str_slice, clamp, len.
  destruct (Z.ltb_spec (Z.of_nat i) 0); [lia|].
  rewrite Z.min_l by lia. rewrite Nat2Z.id.
  rewrite take_ge; [done|]. rewrite length_drop. lia.
Qed.

Lemma str_slice_between s (i j : nat) :
  i ≤ j → j ≤ length (chars s) →
  str_slice s (Some (Z.of_nat i)) (Some (Z.of_nat j))
  = str (take (j - i) (drop i (chars s))).
Proof.
  intros Hij Hj. unfold str_slice, clamp, len.
  destruct (Z.ltb_spec (Z.of_nat i) 0); [lia|].
  destruct (Z.ltb_spec (Z.of_nat j) 0); [lia|].
  rewrite !Z.min_l by lia. rewrite Nat2Z.id.
  by replace (Z.to_nat (Z.of_nat j - Z.of_nat i)) with (j - i) by lia.
Qed.

(** [s[-1:]] is the last character, and [s[i:-1]] stops before it. *)
Lemma str_slice_last s :
  str_slice s (Some (-1)%Z) None
  = str (drop (length (chars s) - 1) (chars s)).
Proof.
  unfold str_slice, clamp, len. simpl.
  set (n := length (chars s)).
  replace (Z.to_nat (Z.max (-1 + Z.of_nat n) 0)) with (n - 1) by lia.
  rewrite take_ge; [done|]. rewrite length_drop. lia.
Qed.

Lemma str_slice_but_last s (i : nat) :
  i ≤ length (chars s) - 1 →
  str_slice s (Some (Z.of_nat i)) (Some (-1)%Z)
  = str (take (length (chars s) - 1 - i) (drop i (chars s))).
Proof.
  intros Hi. unfold str_slice, clamp, len. simpl.
  set (n := length (chars s)) in *.
  destruct (Z.ltb_spec (Z.of_nat i) 0); [lia|].
  rewrite Z.min_l by lia. rewrite Nat2Z.id.
  by replace (Z.to_nat (Z.max (-1 + Z.of_nat n) 0 - Z.of_nat i))
    with (n - 1 - i) by lia.
Qed.

Lemma str_partition_split s sep a spc b :
  str_partition s sep = (a, spc, b) → spc ≠ "" →
  spc = sep ∧ s = a +:+ sep +:+ b.
Proof.
  unfold str_partition.
  destruct (find_list (chars sep) (chars s)) as [i|] eqn:Ei.
  - intros [= <- <- <-] _. split; [done|]. apply chars_inj.
    rewrite !chars_app, !chars_str. by apply find_list_Some.
  - intros [= <- <- <-]. done.
Qed.

(** A string in which [(] occurs and that ends with [)] is what stands
    before the first [(], then [(], then what stands between this and
    the last character, then [)]: the name and the arguments that
    [ProcDict.from_map] takes from a key. *)
Lemma signature_split fn :
  str_find fn "(" ≠ (-1)%Z →
  str_slice fn (Some (-1)%Z) None = ")" →
  fn = str_slice fn None (Some (str_find fn "("))
       +:+ "(" +:+ str_slice fn (Some (str_find fn "(" + 1)%Z)
                               (Some (-1)%Z) +:+ ")".
Proof.
  unfold str_find.
  destruct (find_list (chars "(") (chars fn)) as [i|] eqn:Ei; [|done].
  intros _ Hlast. apply find_list_Some in Ei. simpl in Ei.
  set (l := chars fn) in *. set (n := length l).
  rewrite str_slice_last in Hlast. fold l n in Hlast.
  apply (f_equal String.list_ascii_of_string) in Hlast.
  rewrite chars_str in Hlast. simpl in Hlast.
  assert (Hn : i + 1 ≤ n).
  { pose proof (f_equal length Ei) as Hlen.
    rewrite length_app in Hlen. simpl in Hlen.
    rewrite length_take, length_drop in Hlen. fold n in Hlen. lia. }
  assert (Hi : i + 1 ≤ n - 1).
  { destruct (decide (i = n - 1)) as [->|]; [|lia].
    assert (Hd : drop (n - 1) l = ")"%char :: []) by done.
    rewrite Ei in Hd.
    rewrite drop_app_length' in Hd
      by (rewrite length_take; unfold n in *; lia).
    done. }
  replace (Z.of_nat i + 1)%Z with (Z.of_nat (i + 1)) by lia.
  rewrite str_slice_to by (fold l n; lia).
  rewrite str_slice_but_last by (fold l n; lia).
  fold l n. apply chars_inj. rewrite !chars_app, !chars_str. fold l.
  rewrite Ei at 1. f_equal. simpl. f_equal.
  rewrite <- (take_drop (n - 1 - (i + 1)) (drop (i + 1) l)) at 1.
  f_equal. rewrite drop_drop.
  replace (i + 1 + (n - 1 - (i + 1))) with (n - 1) by lia. done.
Qed.

(** ** External keys *)

Section keys.
Context {lib : DbObjectLib}.

Lemma set_attrs_Ok func m func' :
  ProcDict.set_attrs func m = Ok func' →
  cls func' = cls func ∧ attrs func' = m ∪ attrs func.
Proof.
  unfold ProcDict.set_attrs. destruct (existsb _ _); [done|].
  by intros [= <-].
Qed.

Lemma attrs_setattr_ne o a b v :
  a ≠ b → attrs (setattr o a v) !! b = attrs o !! b.
Proof. intros Hab. simpl. by rewrite lookup_insert_ne. Qed.

(** What an entry that [ProcDict.from_map] has loaded tells of its key:
    the key is the kind word, the name and the arguments under which
    the object is stored, and the object is of that kind and has that
    name and those arguments, unless an attribute of the entry has
    taken their place. *)
Lemma from_map_entry_key schema key infunc sch fnc args func :
  ProcDict.from_map_entry schema key infunc = Ok (sch, fnc, args, func) →
  ∃ kind m,
    infunc = Some m
    ∧ key = kind +:+ " " +:+ fnc +:+ "(" +:+ args +:+ ")"
    ∧ str_lower (objtype (cls func)) = kind
    ∧ (m !! "name" = None → attrs func !! "name" = Some (PStr fnc))
    ∧ (m !! "arguments" = None →
       attrs func !! "arguments" = Some (PStr args)).
Proof.
  unfold ProcDict.from_map_entry.
  destruct (str_partition key " ") as [[kind spc] fn] eqn:Ep.
  destruct (negb (bool_decide (spc = " ")) || _) eqn:E1; [done|].
  apply orb_false_elim in E1 as [Hs Hk].
  apply negb_false_iff, bool_decide_eq_true in Hs, Hk. subst spc.
  destruct ((str_find fn "(" =? -1)%Z || _) eqn:E2; [done|].
  apply orb_false_elim in E2 as [Hp Hl].
  apply Z.eqb_neq in Hp. apply negb_false_iff, bool_decide_eq_true in Hl.
  destruct infunc as [m|]; [|done].
  destruct (bool_decide (m = ∅)); [done|].
  set (name := str_slice fn None (Some (str_find fn "("))).
  set (arguments := str_slice fn (Some (str_find fn "(" + 1)%Z)
                              (Some (-1)%Z)).
  set (func0 := if bool_decide (kind = "function") then _ else _).
  destruct (ProcDict.set_attrs func0 m) as [func1|] eqn:Esa; [|done].
  apply set_attrs_Ok in Esa as [Hc1 Ha1]. cbn -[func0].
  destruct (if hasattr func1 "volatility" then _ else Ok func1)
    as [func2|] eqn:Ev; [|done].
  assert (H2 : cls func2 = cls func1
               ∧ ∀ a, a ≠ "volatility" → attrs func2 !! a = attrs func1 !! a).
  { destruct (hasattr func1 "volatility"); [|by injection Ev as <-].
    destruct (getattr func1 "volatility") as [v|]; [|done]. simpl in Ev.
    destruct (ProcDict.first_lower v) as [v'|]; [|done].
    injection Ev as <-. split; [done|]. intros a Ha.
    by apply attrs_setattr_ne. }
  destruct H2 as [Hc2 Ha2]. cbn -[func0].
  destruct (if bool_decide (cls func2 = Function) then _ else Ok ())
    as [[]|]; [|done].
  cbn -[func0].
  destruct (match m !! "privileges" with Some _ => _ | None => Ok func2 end)
    as [func3|] eqn:Epr; [|done].
  assert (H3 : cls func3 = cls func2
               ∧ ∀ a, a ≠ "privileges" → attrs func3 !! a = attrs func2 !! a).
  { destruct (m !! "privileges"); [|by injection Epr as <-].
    destruct (getattr func2 "owner") as [o|]; [|done]. simpl in Epr.
    destruct (privileges_from_map _ _ _) as [p'|]; [|done].
    injection Epr as <-. split; [done|]. intros a Ha.
    by apply attrs_setattr_ne. }
  destruct H3 as [Hc3 Ha3]. cbn -[func0].
  intros [= <- <- <- <-]. exists kind, m. split; [done|].
  destruct (str_partition_split _ _ _ _ _ Ep) as [_ Hkey]; [done|].
  split.
  { rewrite Hkey. do 2 f_equal. by apply signature_split. }
  split.
  { rewrite Hc3, Hc2, Hc1. unfold func0.
    rewrite !elem_of_cons in Hk.
    destruct Hk as [->|[->|Hk]]; [done|done|by apply elem_of_nil in Hk]. }
  assert (H0 : attrs func0 !! "name" = Some (PStr name)
               ∧ attrs func0 !! "arguments" = Some (PStr arguments)).
  { unfold func0. by destruct (bool_decide (kind = "function")). }
  destruct H0 as [H0n H0a]. split.
  - intros Hm. rewrite Ha3, Ha2, Ha1 by done.
    by rewrite lookup_union_r.
  - intros Hm. rewrite Ha3, Ha2, Ha1 by done.
    by rewrite lookup_union_r.
Qed.

End keys.

Section operator_family_keys.
Context {lib : DbObjectLib}.

Lemma opfam_from_map_entry_key schema n m spec key sch opf idx opfam :
  key = "operator family " +:+ n +:+ " using " +:+ m →
  OperatorFamilyDict.from_map_entry schema key spec
  = Ok (sch, opf, idx, opfam) →
  OperatorFamily.extern_key opfam = Ok key.
Proof.
  intros Hkey. unfold OperatorFamilyDict.from_map_entry.
  destruct (negb (str_startswith key "operator family ") || _); [done|].
  destruct spec as [inopfam|]; [|done].
  unfold str_rfind.
  set (l := chars key).
  assert (Hl : l = (chars "operator family " ++ chars n)
                   ++ chars " using " ++ chars m).
  { unfold l. rewrite Hkey, !chars_app. by rewrite <- app_assoc. }
  destruct (rfind_list_last (chars " using ")
              (chars "operator family " ++ chars n) (chars m))
    as (i & Hi & Hge).
  rewrite <- Hl in Hi. rewrite Hi.
  rewrite length_app in Hge. simpl in Hge.
  apply rfind_list_Some in Hi. simpl in Hi.
  assert (Hlen : i + 7 ≤ length l).
  { pose proof (f_equal length Hi) as Hlen.
    rewrite length_app in Hlen. simpl in Hlen.
    rewrite length_take, length_drop in Hlen. lia. }
  replace 16%Z with (Z.of_nat 16) by done.
  replace (Z.of_nat i + 7)%Z with (Z.of_nat (i + 7)) by lia.
  rewrite str_slice_between by (fold l; lia).
  rewrite str_slice_from by (fold l; lia). fold l.
  intros [= <- <- <- <-].
  assert (Hround : "operator family" +:+ " "
                   +:+ str (take (i - 16) (drop 16 l))
                   +:+ " using " +:+ str (drop (i + 7) l) = key).
  { assert (Ht : take i l = chars "operator family "
                             ++ take (i - 16) (drop 16 l)).
    { replace i with (16 + (i - 16)) at 1 by lia.
      rewrite <- take_take_drop. f_equal. by rewrite Hl. }
    apply chars_inj. rewrite !chars_app, !chars_str. fold l.
    etrans; [|symmetry; exact Hi]. rewrite Ht. by rewrite <- !app_assoc. }
  set (o := OperatorFamily.new _ _ _ _ _ _).
  assert (Hn : attrs o !! "name"
               = Some (PStr (str (take (i - 16) (drop 16 l))))) by done.
  assert (Hm : attrs o !! "index_method"
               = Some (PStr (str (drop (i + 7) l)))) by done.
  assert (Hc : cls o = OperatorFamily) by done.
  clearbody o.
  unfold OperatorFamily.extern_key, getattr.
  destruct (delete "owner" (delete "description" inopfam) !! "oldname");
    rewrite ?attrs_setattr_ne by done; rewrite Hn, Hm; simpl; rewrite Hc;
    f_equal; exact Hround.
Qed.

End operator_family_keys.

(** A loop that has gone through a list of entries has gone through
    each of them. *)
Lemma foldl_result_Raise {A B} (f : A → B → result A) l e :
  foldl (λ st x, s ← st; f s x) (Raise e) l = Raise e.
Proof. induction l as [|x l IH]; [done|]. simpl. apply IH. Qed.

Lemma foldl_result_Ok {A B} (f : A → B → result A) l a a' :
  foldl (λ st x, s ← st; f s x) (Ok a) l = Ok a' →
  ∀ x, x ∈ l → ∃ s s', f s x = Ok s'.
Proof.
  revert a. induction l as [|y l IH]; intros a Hf x Hx.
  - by apply elem_of_nil in Hx.
  - simpl in Hf. destruct (f a y) as [s'|e] eqn:Ef.
    + apply elem_of_cons in Hx as [->|Hx]; [by eauto|]. by eapply IH.
    + cbn in Hf. by rewrite foldl_result_Raise in Hf.
Qed.

Section round_trip.
Context {lib : DbObjectLib}.

Lemma ProcDict_from_map_entry self schema infuncs d key spec :
  ProcDict.from_map self schema infuncs = Ok d →
  (key, spec) ∈ infuncs →
  ∃ sch fnc args func,
    ProcDict.from_map_entry schema key spec = Ok (sch, fnc, args, func).
Proof.
  intros Hd Hin. unfold ProcDict.from_map in Hd.
  destruct (foldl_result_Ok
              (λ self entry,
                 '(sch, fnc, arguments, func) ←
                   ProcDict.from_map_entry schema entry.1 entry.2;
                 Ok (<[(sch, fnc, arguments) := func]> self))
              _ _ _ Hd _ Hin) as (s & s' & Hs).
  simpl in Hs.
  destruct (ProcDict.from_map_entry schema key spec)
    as [[[[sch fnc] args] func]|]; [|done].
  by eexists _, _, _, _.
Qed.

Lemma OperatorFamilyDict_from_map_entry self schema inopfams d key spec :
  OperatorFamilyDict.from_map self schema inopfams = Ok d →
  (key, spec) ∈ inopfams →
  ∃ sch opf idx opfam,
    OperatorFamilyDict.from_map_entry schema key spec
    = Ok (sch, opf, idx, opfam).
Proof.
  intros Hd Hin. unfold OperatorFamilyDict.from_map in Hd.
  destruct (foldl_result_Ok
              (λ self entry,
                 '(sch, opf, idx, opfam) ←
                   OperatorFamilyDict.from_map_entry schema entry.1 entry.2;
                 Ok (<[(sch, opf, idx) := opfam]> self))
              _ _ _ Hd _ Hin) as (s & s' & Hs).
  simpl in Hs.
  destruct (OperatorFamilyDict.from_map_entry schema key spec)
    as [[[[sch opf] idx] opfam]|]; [|done].
  by eexists _, _, _, _.
Qed.

(** C9, as amended.  For every key of an entry that [ProcDict.from_map]
    has loaded, when the entry has no attribute [name] or [arguments]
    of its own, [extern_key] of the object made for the entry is the
    key; and for every key [operator family <name> using <method>] of
    an entry that [OperatorFamilyDict.from_map] has loaded,
    [extern_key] of the operator family made for the entry is the
    key. *)
Theorem extern_key_round_trip (schema : string) :
  (∀ self infuncs d key m,
     ProcDict.from_map self schema infuncs = Ok d →
     (key, Some m) ∈ infuncs →
     m !! "name" = None → m !! "arguments" = None →
     ∃ sch fnc args func,
       ProcDict.from_map_entry schema key (Some m)
       = Ok (sch, fnc, args, func)
       ∧ Proc.extern_key func = Ok key)
  ∧ (∀ self inopfams d name method spec,
       OperatorFamilyDict.from_map self schema inopfams = Ok d →
       ("operator family " +:+ name +:+ " using " +:+ method, spec)
       ∈ inopfams →
       ∃ sch opf idx opfam,
         OperatorFamilyDict.from_map_entry schema
           ("operator family " +:+ name +:+ " using " +:+ method) spec
         = Ok (sch, opf, idx, opfam)
         ∧ OperatorFamily.extern_key opfam
           = Ok ("operator family " +:+ name +:+ " using " +:+ method)).
Proof.
  split.
  - intros self infuncs d key m Hd Hin Hname Hargs.
    destruct (ProcDict_from_map_entry _ _ _ _ _ _ Hd Hin)
      as (sch & fnc & args & func & He).
    exists sch, fnc, args, func. split; [done|].
    destruct (from_map_entry_key _ _ _ _ _ _ _ He)
      as (kind & m' & [= <-] & -> & Hk & Hn & Ha).
    unfold Proc.extern_key.
    rewrite (getattr_Some _ _ _ (Hn Hname)), (getattr_Some _ _ _ (Ha Hargs)).
    simpl. by rewrite Hk.
  - intros self inopfams d name method spec Hd Hin.
    destruct (OperatorFamilyDict_from_map_entry _ _ _ _ _ _ Hd Hin)
      as (sch & opf & idx & opfam & He).
    exists sch, opf, idx, opfam. split; [done|].
    by eapply opfam_from_map_entry_key.
Qed.

End round_trip.

Lemma extern_key_round_trip_witness :
  (∃ sch fnc args func,
     ProcDict.from_map_entry (lib := sample_lib) "public"
       "function f(integer)" (Some sample_entry)
     = Ok (sch, fnc, args, func)
     ∧ Proc.extern_key (lib := sample_lib) func = Ok "function f(integer)")
  ∧ (∃ sch opf idx opfam,
       OperatorFamilyDict.from_map_entry "public"
         "operator family gist_ops using gist" (Some ∅)
       = Ok (sch, opf, idx, opfam)
       ∧ OperatorFamily.extern_key (lib := sample_lib) opfam
         = Ok "operator family gist_ops using gist").
Proof.
  split.
  - apply (proj1 (extern_key_round_trip (lib := sample_lib) "public")
             ∅ [("function f(integer)", Some sample_entry)]
             (<[("public", "f", "integer") :=
                  object Function
                    [("schema", PStr "public"); ("name", PStr "f");
                     ("arguments", PStr "integer"); ("language", PStr "sql");
                     ("returns", PStr "integer"); ("volatility", PStr "i");
                     ("source", PStr "select 1")]]> ∅)).
    + vm_compute. reflexivity.
    + apply list_elem_of_here.
    + reflexivity.
    + reflexivity.
  - apply (proj2 (extern_key_round_trip (lib := sample_lib) "public")
             ∅ [("operator family gist_ops using gist", Some ∅)]
             (<[("public", "gist_ops", "gist") :=
                  OperatorFamily.new (PStr "gist_ops") (PStr "public")
                    (PStr "gist") PNone PNone PNone]> ∅)
             "gist_ops" "gist" (Some ∅)).
    + vm_compute. reflexivity.
    + apply list_elem_of_here.
Defined.

(** C9, as stated, fails: the entry [function f(integer)] with an
    attribute [name: g] is loaded, and [extern_key] of the function
    made for it is [function g(integer)]. *)
Lemma extern_key_renamed :
  ProcDict.from_map_entry (lib := sample_lib) "public"
    "function f(integer)" (Some sample_renamed_entry)
  ≫= (λ r, Proc.extern_key (lib := sample_lib) r.2)
  = Ok "function g(integer)"
  ∧ is_ok (ProcDict.from_map (lib := sample_lib) ∅ "public"
             [("function f(integer)", Some sample_renamed_entry)]) = true
  ∧ bool_decide ("function g(integer)" = "function f(integer)") = false.
Proof. vm_compute. done. Qed.

(** ** Source and object file of a function *)

Lemma find_list_char c a b :
  c ∉ a → find_list [c] (a ++ c :: b) = Some (length a).
Proof.
  induction a as [|x a IH]; intros Hc; simpl.
  - rewrite decide_True; [done|]. apply prefix_cons, prefix_nil.
  - rewrite decide_False.
    + rewrite IH; [done|]. intros ?. apply Hc. by right.
    + intros [k Hk]. injection Hk as -> _. apply Hc. by left.
Qed.

Lemma str_partition_space kind rest :
  " "%char ∉ chars kind →
  str_partition (kind +:+ " " +:+ rest) " " = (kind, " ", rest).
Proof.
  intros Hk. unfold str_partition. rewrite !chars_app.
  change (chars " ") with [" "%char].
  change ([" "%char] ++ chars rest) with (" "%char :: chars rest).
  rewrite find_list_char by done.
  rewrite take_app_length.
  rewrite <- drop_drop, drop_app_length.
  change (drop (length [" "%char]) (" "%char :: chars rest))
    with (chars rest).
  by rewrite !str_chars.
Qed.

Lemma signature_last s : str_slice (s +:+ ")") (Some (-1)%Z) None = ")".
Proof.
  rewrite str_slice_last, chars_app, length_app. simpl.
  rewrite drop_app_length' by lia. done.
Qed.

Lemma signature_find name args :
  str_find (name +:+ "(" +:+ args +:+ ")") "(" ≠ (-1)%Z.
Proof.
  unfold str_find. rewrite !chars_app.
  destruct (find_list_occurs (chars "(") (chars name)
              (chars args ++ chars ")")) as [i ->]. lia.
Qed.

Lemma kind_no_space kind :
  kind ∈ ["function"; "aggregate"] → " "%char ∉ chars kind.
Proof.
  rewrite !elem_of_cons. intros [->|[->|H]]; [| |by apply elem_of_nil in H].
  - simpl. rewrite !elem_of_cons. intros H.
    repeat (destruct H as [H|H]; [done|]). by apply elem_of_nil in H.
  - simpl. rewrite !elem_of_cons. intros H.
    repeat (destruct H as [H|H]; [done|]). by apply elem_of_nil in H.
Qed.

Lemma str_app_assoc a b c : (a +:+ b) +:+ c = a +:+ b +:+ c.
Proof. apply chars_inj. rewrite !chars_app. by rewrite app_assoc. Qed.

Lemma signature_last' name args :
  str_slice (name +:+ "(" +:+ args +:+ ")") (Some (-1)%Z) None = ")".
Proof.
  rewrite <- (str_app_assoc "(" args ")"), <- str_app_assoc.
  apply signature_last.
Qed.

Section source_obj_file.
Context {lib : DbObjectLib}.

Lemma from_map_entry_loadable schema kind name args m :
  kind ∈ ["function"; "aggregate"] →
  loadable m →
  m ≠ ∅ →
  (kind = "function" → both_or_neither m = true →
   ProcDict.from_map_entry schema (proc_key kind name args) (Some m)
   = Raise ValueError)
  ∧ (kind = "aggregate" ∨ both_or_neither m = false →
     is_ok (ProcDict.from_map_entry schema (proc_key kind name args)
              (Some m)) = true).
Proof.
  intros Hkind (Hp1 & Hp2 & Hvol & Hprivs) Hne.
  unfold ProcDict.from_map_entry, proc_key.
  rewrite str_partition_space by by apply kind_no_space.
  rewrite (bool_decide_eq_true_2 (" " = " ")) by done.
  rewrite (bool_decide_eq_true_2 _ Hkind).
  rewrite (proj2 (Z.eqb_neq _ _) (signature_find name args)).
  rewrite signature_last'.
  rewrite (bool_decide_eq_true_2 (")" = ")")) by done.
  rewrite (bool_decide_eq_false_2 _ Hne).
  cbn [negb orb].
  set (fnc := str_slice _ None _). set (arguments := str_slice _ (Some _) _).
  set (func0 := if bool_decide (kind = "function") then _ else _).
  assert (H0 : ∀ a, a ∈ ["volatility"; "source"; "obj_file"; "owner"] →
               attrs func0 !! a = None).
  { intros a Ha. unfold func0.
    rewrite !elem_of_cons in Ha.
    destruct Ha as [->|[->|[->|[->|Ha]]]]; [..|by apply elem_of_nil in Ha];
      by destruct (bool_decide (kind = "function")). }
  assert (Hc0 : cls func0 = if bool_decide (kind = "function")
                            then Function else Aggregate).
  { unfold func0. by destruct (bool_decide (kind = "function")). }
  clearbody func0.
  unfold ProcDict.set_attrs, ProcDict.properties. simpl existsb.
  rewrite Hp1, Hp2.
  rewrite (bool_decide_eq_false_2 (is_Some None)) by (by intros [? ?]).
  cbn [orb mbind result_bind].
  set (func1 := PyObject (cls func0) (m ∪ attrs func0)).
  assert (H1 : ∀ a, a ∈ ["volatility"; "source"; "obj_file"; "owner"] →
               attrs func1 !! a = m !! a).
  { intros a Ha. unfold func1. simpl. rewrite lookup_union_l; [done|].
    by apply H0. }
  assert (∃ func2,
            (if hasattr func1 "volatility" then
               getattr func1 "volatility"
               ≫= λ volatility, ProcDict.first_lower volatility
               ≫= λ v, Ok (setattr func1 "volatility" v)
             else Ok func1) = Ok func2
            ∧ cls func2 = cls func0
            ∧ ∀ a, a ∈ ["source"; "obj_file"; "owner"] →
                   attrs func2 !! a = m !! a)
    as (func2 & -> & Hc2 & H2).
  { unfold hasattr, getattr. rewrite H1 by by repeat constructor.
    destruct (m !! "volatility") as [v|] eqn:Ev.
    - destruct (Hvol v eq_refl) as [s ->].
      rewrite bool_decide_eq_true_2 by by eexists. simpl.
      eexists. split; [done|]. split; [done|]. intros a Ha. simpl.
      rewrite lookup_insert_ne.
      + apply H1. by right.
      + intros <-. rewrite !elem_of_cons in Ha.
        destruct Ha as [?|[?|[?|Ha]]]; [done..|by apply elem_of_nil in Ha].
    - rewrite bool_decide_eq_false_2 by (by intros [? ?]).
      eexists. split; [done|]. split; [done|]. intros a Ha.
      apply H1. by right. }
  cbn [mbind result_bind].
  unfold hasattr. rewrite !H2 by by repeat constructor.
  rewrite Hc2, Hc0. fold (both_or_neither m).
  assert (∃ func3,
            match m !! "privileges" with
            | Some privs =>
                getattr func2 "owner"
                ≫= λ owner, privileges_from_map privs Proc.allprivs owner
                ≫= λ p, Ok (setattr func2 "privileges" p)
            | None => Ok func2
            end = Ok func3) as [func3 Hpr].
  { destruct (m !! "privileges") as [p|] eqn:Ep; [|by eexists].
    destruct (Hprivs p eq_refl) as (o & Ho & Hok).
    unfold getattr. rewrite H2 by by repeat constructor. rewrite Ho. simpl.
    destruct (privileges_from_map p Proc.allprivs o); [|done].
    by eexists. }
  split.
  - intros -> Hb. rewrite Hb. done.
  - intros [->|Hb].
    + simpl. rewrite Hpr. done.
    + rewrite Hb.
      destruct (bool_decide (_ = Function));
        cbn [mbind result_bind]; rewrite Hpr; done.
Qed.

End source_obj_file.

Section source_xor_obj_file.
Context {lib : DbObjectLib}.

Lemma from_map_entry_unspecified schema kind name args infunc :
  kind ∈ ["function"; "aggregate"] →
  infunc = None ∨ infunc = Some ∅ →
  ProcDict.from_map_entry schema (proc_key kind name args) infunc
  = Raise ValueError.
Proof.
  intros Hkind Hin.
  unfold ProcDict.from_map_entry, proc_key.
  rewrite str_partition_space by by apply kind_no_space.
  rewrite (bool_decide_eq_true_2 (" " = " ")) by done.
  rewrite (bool_decide_eq_true_2 _ Hkind).
  rewrite (proj2 (Z.eqb_neq _ _) (signature_find name args)).
  rewrite signature_last'.
  rewrite (bool_decide_eq_true_2 (")" = ")")) by done.
  cbn [negb orb]. by destruct Hin as [->| ->].
Qed.

Lemma from_map_raises self schema pre key spec post d e :
  ProcDict.from_map self schema pre = Ok d →
  ProcDict.from_map_entry schema key spec = Raise e →
  ProcDict.from_map self schema (pre ++ (key, spec) :: post) = Raise e.
Proof.
  unfold ProcDict.from_map. intros Hpre He.
  rewrite foldl_app, Hpre. simpl. rewrite He. simpl.
  apply (foldl_result_Raise
           (λ self entry,
              '(sch, fnc, arguments, func) ←
                ProcDict.from_map_entry schema entry.1 entry.2;
              Ok (<[(sch, fnc, arguments) := func]> self))).
Qed.

(** C7.  An entry [function <name>(<arguments>)] whose other attributes
    load raises [ValueError] when it has both [source] and [obj_file],
    or neither, and so does the loading of any map it is part of, once
    the entries before it are loaded; with exactly one of the two the
    entry is loaded.  An entry [aggregate <name>(<arguments>)] that is
    not empty is loaded whichever of the two it has. *)
Theorem source_xor_obj_file (schema name args : string)
  (m : gmap string pyval) :
  loadable m →
  (both_or_neither m = true →
   ProcDict.from_map_entry schema (proc_key "function" name args) (Some m)
   = Raise ValueError
   ∧ ∀ self pre post d,
       ProcDict.from_map self schema pre = Ok d →
       ProcDict.from_map self schema
         (pre ++ (proc_key "function" name args, Some m) :: post)
       = Raise ValueError)
  ∧ (both_or_neither m = false →
     is_ok (ProcDict.from_map_entry schema
              (proc_key "function" name args) (Some m)) = true)
  ∧ (m ≠ ∅ →
     is_ok (ProcDict.from_map_entry schema
              (proc_key "aggregate" name args) (Some m)) = true).
Proof.
  intros Hload.
  assert (Hf : "function" ∈ ["function"; "aggregate"]) by by left.
  assert (Ha : "aggregate" ∈ ["function"; "aggregate"])
    by by right; left.
  split; [|split].
  - intros Hb.
    assert (He : ProcDict.from_map_entry schema
                   (proc_key "function" name args) (Some m)
                 = Raise ValueError).
    { destruct (decide (m = ∅)) as [->|Hne].
      - apply from_map_entry_unspecified; [done|by right].
      - by apply (from_map_entry_loadable schema "function" name args m). }
    split; [done|]. intros self pre post d Hpre.
    by eapply from_map_raises.
  - intros Hb.
    apply (from_map_entry_loadable schema "function" name args m);
      [done|done| |by right].
    intros ->. discriminate Hb.
  - intros Hne.
    apply (from_map_entry_loadable schema "aggregate" name args m);
      [done|done|done|by left].
Qed.

End source_xor_obj_file.

Lemma sample_entry_loadable : loadable (lib := sample_lib) sample_entry.
Proof.
  split; [reflexivity|]. split; [reflexivity|]. split.
  - intros v Hv. vm_compute in Hv. injection Hv as <-. by eexists.
  - intros p Hp. vm_compute in Hp. discriminate Hp.
Defined.

Lemma sample_both_entry_loadable :
  loadable (lib := sample_lib) sample_both_entry.
Proof.
  split; [reflexivity|]. split; [reflexivity|]. split.
  - intros v Hv. vm_compute in Hv. discriminate Hv.
  - intros p Hp. vm_compute in Hp. discriminate Hp.
Defined.

Lemma source_xor_obj_file_witness :
  is_ok (ProcDict.from_map_entry (lib := sample_lib) "public"
           (proc_key "function" "f" "integer") (Some sample_entry)) = true
  ∧ ProcDict.from_map_entry (lib := sample_lib) "public"
      (proc_key "function" "f" "integer") (Some sample_both_entry)
    = Raise ValueError.
Proof.
  split.
  - apply (proj1 (proj2 (source_xor_obj_file (lib := sample_lib)
                           "public" "f" "integer" sample_entry
                           sample_entry_loadable))).
    reflexivity.
  - apply (proj1 (source_xor_obj_file (lib := sample_lib)
                    "public" "f" "integer" sample_both_entry
                    sample_both_entry_loadable)).
    reflexivity.
Defined.

(** ** Dependencies of a trigger *)

Section trigger_deps.
Context {lib : DbObjectLib}.


End trigger_deps.



(** ** Functions that define a type *)

Section get_deps.
Context {lib : DbObjectLib}.

Lemma qualname_setattr o a v :
  a ≠ "schema" → a ≠ "name" → qualname (setattr o a v) = qualname o.
Proof.
  intros H1 H2. unfold qualname, getattr_d. simpl.
  by rewrite !lookup_insert_ne.
Qed.

Lemma designates_setattr h r s v :
  designates h r (setattr s "_defining" v) = designates h r s.
Proof.
  unfold designates, Function.names_as_converter.
  by rewrite qualname_setattr.
Qed.

Lemma setattr_setattr o a v w :
  setattr (setattr o a v) a w = setattr o a w.
Proof. unfold setattr. simpl. by rewrite insert_insert_eq. Qed.

(** The loop of [get_deps] takes out of the set the types that name
    the function as a conversion function, and leaves in [_defining]
    the last of them it has met. *)
Lemma get_deps_foldl h l :
  ∀ d s,
    NoDup l → (∀ r, r ∈ l → r ∈ d) →
    foldl (Function.get_deps_step h) (Ok (d, s)) l
    = Ok (d ∖ list_to_set (filter (λ r, designates h r s = true) l),
          from_option (λ t, setattr s "_defining" (PRef t)) s
            (last (filter (λ r, designates h r s = true) l))).
Proof.
  induction l as [|x l IH]; intros d s Hnd Hin.
  - simpl. f_equal. f_equal. set_solver.
  - apply NoDup_cons in Hnd as [Hx Hnd]. simpl.
    change (bool_decide (cls (h x) = DbType)
            && Function.names_as_converter (h x) s)
      with (designates h x s).
    rewrite filter_cons.
    destruct (designates h x s) eqn:Ex.
    + rewrite decide_True by done.
      unfold Function.set_remove.
      rewrite decide_True by (apply Hin; by left). simpl.
      rewrite IH; [|done|].
      * assert (Hf : filter (λ r, designates h r
                                    (setattr s "_defining" (PRef x)) = true) l
                     = filter (λ r, designates h r s = true) l).
        { apply list_filter_iff. intros r.
          by rewrite designates_setattr. }
        rewrite Hf. f_equal. f_equal; [set_solver|].
        destruct (filter (λ r, designates h r s = true) l)
          as [|y k] eqn:Ek; [reflexivity|].
        change (last (x :: y :: k)) with (last (y :: k)).
        destruct (last (y :: k)) as [t|] eqn:El.
        -- apply setattr_setattr.
        -- by apply last_None in El.
      * intros r Hr. apply elem_of_difference. split.
        -- apply Hin. by right.
        -- intros ->%elem_of_singleton. done.
    + rewrite decide_False by done. simpl.
      apply IH; [done|]. intros r Hr. apply Hin. by right.
Qed.


End get_deps.

Section get_deps_defining.
Context {lib : DbObjectLib}.


End get_deps_defining.



(** ** The shell type *)

Section shell_type.
Context {lib : DbObjectLib}.

(** [create] of a function that defines the type at [t]. *)
Lemma create_defining h f newsrc t :
  attrs f !! "_defining" = Some (PRef t) →
  Function.create h f newsrc
  = s ← function_stmt f newsrc;
    if hasattr (h t) "_shell_created"
    then Ok ([Sql s] ++ trailing f, h)
    else Ok ([Sql ("CREATE TYPE " +:+ qualname (h t)); Sql s] ++ trailing f,
             <[t := setattr (h t) "_shell_created" (PBool true)]> h).
Proof.
  intros Hd.
  unfold Function.create, Function.create_body, function_stmt,
    Function.shell_type.
  rewrite (getattr_d_Some _ _ _ _ Hd).
  destruct (Function.src_clause f newsrc) as [src|]; [|done].
  destruct (Function.volat_clause f) as [volat|]; [|done].
  destruct (Function.config_clause f) as [config|]; [|done].
  destruct (Function.cost_clause f) as [cost|]; [|done].
  destruct (Function.rows_clause f) as [rows|]; [|done].
  cbn [mbind result_bind].
  destruct (hasattr (h t) "_shell_created"); cbn [mbind result_bind].
  - destruct (Function.create_function _ _ _ _ _ _ _ _ _ _) as [s|];
      [|done].
    cbn [mbind result_bind]. unfold commentable, grantable, ownable, trailing.
    by rewrite <- !app_assoc.
  - destruct (Function.create_function _ _ _ _ _ _ _ _ _ _) as [s|];
      [|done].
    cbn [mbind result_bind]. unfold commentable, grantable, ownable, trailing.
    rewrite qualname_setattr by done. by rewrite <- !app_assoc.
Qed.

(** The statement [CREATE FUNCTION] is not the one of a shell type. *)
Lemma function_stmt_not_shell f newsrc s q :
  function_stmt f newsrc = Ok s → s ≠ "CREATE TYPE " +:+ q.
Proof.
  unfold function_stmt.
  destruct (Function.src_clause f newsrc) as [src|]; [|done].
  destruct (Function.volat_clause f) as [volat|]; [|done].
  destruct (Function.config_clause f) as [config|]; [|done].
  destruct (Function.cost_clause f) as [cost|]; [|done].
  destruct (Function.rows_clause f) as [rows|]; [|done].
  cbn [mbind result_bind]. unfold Function.create_function.
  destruct (if hasattr f "allargs" then _ else _) as [a|]; [|done].
  destruct (getattr f "returns") as [r|]; [|done].
  destruct (getattr f "language") as [l|]; [|done].
  cbn [mbind result_bind]. intros [= <-] Heq.
  apply (f_equal String.list_ascii_of_string) in Heq.
  rewrite !chars_app in Heq.
  destruct (truthy newsrc); simpl in Heq; discriminate Heq.
Qed.

(** Once the shell type is there, no call makes it again. *)
Lemma create_all_created h t calls :
  hasattr (h t) "_shell_created" = true →
  (∀ c, c ∈ calls →
        attrs c.1 !! "_defining" = Some (PRef t)
        ∧ is_ok (function_stmt c.1 c.2) = true) →
  ∃ outs,
    create_all h calls = Ok (outs, h)
    ∧ Forall2 (λ out c, ∃ s, function_stmt c.1 c.2 = Ok s
                             ∧ s ≠ "CREATE TYPE " +:+ qualname (h t)
                             ∧ out = [Sql s] ++ trailing c.1) outs calls.
Proof.
  intros Hc. induction calls as [|[f n] calls IH]; intros Hall.
  - exists []. split; [done|]. constructor.
  - destruct (Hall (f, n)) as [Hd Hok]; [by left|]. simpl in Hd, Hok.
    destruct IH as (outs & Hr & Hf).
    { intros c Hin. apply Hall. by right. }
    simpl. rewrite (create_defining _ _ _ _ Hd).
    destruct (function_stmt f n) as [s|] eqn:Es; [|done].
    cbn [mbind result_bind]. rewrite Hc. cbn [mbind result_bind].
    rewrite Hr. cbn [mbind result_bind].
    eexists. split; [done|]. constructor; [|done].
    exists s. split; [done|]. split; [|done].
    by eapply function_stmt_not_shell.
Qed.

(** C4.  In a run of [create] on functions that all define the type at
    [t], started when the shell of the type has not been made, the
    first call returns the statement [CREATE TYPE <qualified name>],
    then its [CREATE FUNCTION], then the statements of its decorators;
    every later call returns its [CREATE FUNCTION] and the statements
    of its decorators, and no [CREATE FUNCTION] is the statement of
    the shell. *)
Theorem shell_type_created_once (h : heap) (t : ref) (f : pyobject)
  (newsrc : pyval) (calls : list (pyobject * pyval)) :
  hasattr (h t) "_shell_created" = false →
  (∀ c, c ∈ (f, newsrc) :: calls →
        attrs c.1 !! "_defining" = Some (PRef t)
        ∧ is_ok (function_stmt c.1 c.2) = true) →
  ∃ s out outs h',
    create_all h ((f, newsrc) :: calls) = Ok (out :: outs, h')
    ∧ function_stmt f newsrc = Ok s
    ∧ s ≠ "CREATE TYPE " +:+ qualname (h t)
    ∧ out = [Sql ("CREATE TYPE " +:+ qualname (h t)); Sql s] ++ trailing f
    ∧ Forall2 (λ out c, ∃ s, function_stmt c.1 c.2 = Ok s
                             ∧ s ≠ "CREATE TYPE " +:+ qualname (h t)
                             ∧ out = [Sql s] ++ trailing c.1) outs calls.
Proof.
  intros Hc Hall.
  destruct (Hall (f, newsrc)) as [Hd Hok]; [by left|]. simpl in Hd, Hok.
  destruct (function_stmt f newsrc) as [s|] eqn:Es; [|done].
  set (h1 := <[t := setattr (h t) "_shell_created" (PBool true)]> h).
  assert (H1 : h1 t = setattr (h t) "_shell_created" (PBool true)).
  { unfold h1. apply fn_lookup_insert. }
  destruct (create_all_created h1 t calls) as (outs & Hr & Hf).
  { rewrite H1. apply hasattr_true. simpl. rewrite lookup_insert_eq.
    by eexists. }
  { intros c Hin. apply Hall. by right. }
  rewrite H1, qualname_setattr in Hf by done.
  exists s, ([Sql ("CREATE TYPE " +:+ qualname (h t)); Sql s] ++ trailing f),
    outs, h1.
  split.
  { simpl. rewrite (create_defining _ _ _ _ Hd), Es.
    cbn [mbind result_bind]. rewrite Hc. cbn [mbind result_bind].
    fold h1. rewrite Hr. done. }
  split; [done|]. split; [by eapply function_stmt_not_shell|].
  split; [done|]. done.
Qed.

End shell_type.

Lemma shell_type_created_once_witness :
  ∃ s out outs h',
    create_all (lib := sample_lib) sample_types
      [(sample_in_function, PNone); (sample_out_function, PNone)]
    = Ok (out :: outs, h')
    ∧ function_stmt (lib := sample_lib) sample_in_function PNone = Ok s
    ∧ s ≠ "CREATE TYPE " +:+ qualname (lib := sample_lib)
                               (sample_types 7%positive)
    ∧ out = [Sql ("CREATE TYPE " +:+ qualname (lib := sample_lib)
                                      (sample_types 7%positive)); Sql s]
            ++ trailing (lib := sample_lib) sample_in_function
    ∧ Forall2 (λ out c,
                 ∃ s, function_stmt (lib := sample_lib) c.1 c.2 = Ok s
                      ∧ s ≠ "CREATE TYPE "
                            +:+ qualname (lib := sample_lib)
                                  (sample_types 7%positive)
                      ∧ out = [Sql s] ++ trailing (lib := sample_lib) c.1)
        outs [(sample_out_function, PNone)].
Proof.
  apply (shell_type_created_once (lib := sample_lib) sample_types 7%positive
           sample_in_function PNone [(sample_out_function, PNone)]).
  - reflexivity.
  - intros c Hc. apply elem_of_cons in Hc as [->|Hc].
    + split; reflexivity.
    + apply elem_of_cons in Hc as [->|Hc]; [split; reflexivity|].
      by apply elem_of_nil in Hc.
Defined.

(** ** Triggers *)

Section trigger_create.
Context {lib : DbObjectLib}.

(** [create] of a trigger that has what the statement needs: a name,
    its table, a list of events, a timing, a level and a procedure, and
    columns that can be gone through if it has columns. *)
Lemma trigger_create_body_ok h self name table evl timing level procedure :
  attrs self !! "name" = Some (PStr name) →
  attrs self !! "_table" = Some (PRef table) →
  attrs self !! "events" = Some (PList evl) →
  (∀ columns, attrs self !! "columns" = Some columns →
              is_ok (py_iter columns) = true) →
  attrs self !! "timing" = Some (PStr timing) →
  attrs self !! "level" = Some (PStr level) →
  attrs self !! "procedure" = Some procedure →
  ∃ constr evts defer cond,
    Trigger.create_body h self
    = Ok [Sql ("CREATE " +:+ constr +:+ "TRIGGER " +:+ quote_id name
               +:+ nl +:+ "    " +:+ str_upper timing +:+ " " +:+ evts
               +:+ " ON " +:+ qualname (h table) +:+ defer +:+ nl
               +:+ "    FOR EACH " +:+ str_upper level +:+ cond +:+ nl
               +:+ "    EXECUTE PROCEDURE " +:+ pystr procedure)]
    ∧ (constr = "" ∨ constr = "CONSTRAINT ").
Proof.
  intros Hn Ht He Hc Htm Hl Hp. unfold Trigger.create_body.
  assert (Hrest : ∀ constr defer,
            (constr = "" ∨ constr = "CONSTRAINT ") →
            ∃ evts cond,
              (events ← getattr self "events";
               evl ← py_iter events;
               let evts := str_upper (str_join " OR " evl) in
               evts ← (if hasattr self "columns" then
                         upd ← py_contains "update" events;
                         if (upd : bool) then
                           columns ← getattr self "columns";
                           cols ← py_iter columns;
                           Ok (str_replace evts "UPDATE"
                                 ("UPDATE OF " +:+ str_join ", " cols))
                         else Ok evts
                       else Ok evts);
               cond ← (if hasattr self "condition" then
                         condition ← getattr self "condition";
                         Ok (nl +:+ "    WHEN (" +:+ pystr condition +:+ ")")
                       else Ok "");
               name ← Trigger.quoted_name self;
               timing ← getattr self "timing";
               timing ← py_upper timing;
               table ← Trigger.table_qualname h self;
               level ← getattr self "level";
               level ← py_upper level;
               procedure ← getattr self "procedure";
               Ok [Sql ("CREATE " +:+ constr +:+ "TRIGGER " +:+ name +:+ nl
                        +:+ "    " +:+ timing +:+ " " +:+ evts +:+ " ON "
                        +:+ table +:+ defer +:+ nl +:+ "    FOR EACH "
                        +:+ level +:+ cond +:+ nl
                        +:+ "    EXECUTE PROCEDURE " +:+ pystr procedure)])
              = Ok [Sql ("CREATE " +:+ constr +:+ "TRIGGER " +:+ quote_id name
                         +:+ nl +:+ "    " +:+ str_upper timing +:+ " "
                         +:+ evts +:+ " ON " +:+ qualname (h table) +:+ defer
                         +:+ nl +:+ "    FOR EACH " +:+ str_upper level
                         +:+ cond +:+ nl +:+ "    EXECUTE PROCEDURE "
                         +:+ pystr procedure)]).
  { intros constr defer _.
    unfold Trigger.quoted_name, Trigger.table_qualname.
    rewrite (getattr_Some _ _ _ He), (getattr_Some _ _ _ Hn),
      (getattr_Some _ _ _ Htm), (getattr_Some _ _ _ Hl),
      (getattr_Some _ _ _ Hp), (getattr_Some _ _ _ Ht).
    cbn [mbind result_bind py_iter py_contains py_upper].
    assert (∃ evts,
              (if hasattr self "columns" then
                 if bool_decide ("update" ∈ evl) then
                   getattr self "columns"
                   ≫= λ columns, py_iter columns
                   ≫= λ cols,
                        Ok (str_replace (str_upper (str_join " OR " evl))
                              "UPDATE" ("UPDATE OF " +:+ str_join ", " cols))
                 else Ok (str_upper (str_join " OR " evl))
               else Ok (str_upper (str_join " OR " evl))) = Ok evts)
      as [evts ->].
    { destruct (attrs self !! "columns") as [columns|] eqn:Ecol.
      - rewrite (hasattr_Some _ _ _ Ecol), (getattr_Some _ _ _ Ecol).
        specialize (Hc columns eq_refl). cbn [mbind result_bind].
        destruct (py_iter columns) as [cols|]; [|done].
        destruct (bool_decide ("update" ∈ evl));
          cbn [mbind result_bind]; by eexists.
      - rewrite (proj2 (hasattr_false _ _) Ecol). by eexists. }
    cbn [mbind result_bind].
    destruct (attrs self !! "condition") as [c|] eqn:Ec.
    - rewrite (hasattr_Some _ _ _ Ec), (getattr_Some _ _ _ Ec).
      by eexists _, _.
    - rewrite (proj2 (hasattr_false _ _) Ec). by eexists _, _. }
  destruct (hasattr self "constraint" && _).
  - edestruct Hrest as (evts & cond & Hr); [by right|].
    eexists _, _, _, _. split; [exact Hr|by right].
  - edestruct Hrest as (evts & cond & Hr); [by left|].
    eexists _, _, _, _. split; [exact Hr|by left].
Qed.

End trigger_create.

Section trigger_diff.
Context {lib : DbObjectLib}.

Lemma getattr_d_setattr o a v d : getattr_d (setattr o a v) a d = v.
Proof. unfold getattr_d. simpl. by rewrite lookup_insert_eq. Qed.

(** The loop of [diff_map] over the compared attributes: the flag says
    whether they were all equal, and the trigger has the attributes of
    [intrg] where they differed. *)
Lemma diff_attrs_foldl intrg l :
  ∀ same self,
    let r := foldl (Trigger.diff_attr intrg) (same, self) l in
    cls r.2 = cls self
    ∧ (∀ a, a ∉ l → attrs r.2 !! a = attrs self !! a)
    ∧ (∀ a, a ∈ l →
            py_eq (getattr_d r.2 a PNone) (getattr_d intrg a PNone) = true)
    ∧ r.1 = same && forallb (λ a, py_eq (getattr_d self a PNone)
                                        (getattr_d intrg a PNone)) l
    ∧ (forallb (λ a, py_eq (getattr_d self a PNone)
                          (getattr_d intrg a PNone)) l = true →
       r.2 = self).
Proof.
  induction l as [|x l IH]; intros same self r.
  - unfold r. simpl. split; [done|]. split; [done|]. split.
    { intros a Ha. by apply elem_of_nil in Ha. }
    split; [by rewrite andb_true_r|done].
  - unfold r. simpl. unfold py_ne.
    destruct (py_eq (getattr_d self x PNone) (getattr_d intrg x PNone))
      eqn:Ex; simpl.
    + destruct (IH same self) as (H1 & H2 & H3 & H4 & H5).
      split; [done|]. split.
      { intros a Ha. apply H2. intros ?. apply Ha. by right. }
      split; [|done].
      intros a Ha. destruct (decide (a ∈ l)) as [Hal|Hal]; [by apply H3|].
      apply elem_of_cons in Ha as [->|Ha]; [|done].
      unfold getattr_d at 1. rewrite H2 by done. exact Ex.
    + set (self1 := setattr self x (getattr_d intrg x PNone)).
      destruct (IH false self1) as (H1 & H2 & H3 & H4 & H5).
      split; [done|]. split.
      { intros a Ha. rewrite H2.
        - unfold self1. simpl. rewrite lookup_insert_ne; [done|].
          intros ->. apply Ha. by left.
        - intros ?. apply Ha. by right. }
      split.
      { intros a Ha. destruct (decide (a ∈ l)) as [Hal|Hal]; [by apply H3|].
        apply elem_of_cons in Ha as [->|Ha]; [|done].
        unfold getattr_d at 1. rewrite H2 by done.
        fold (getattr_d self1 x PNone). unfold self1.
        rewrite getattr_d_setattr. apply py_eq_refl. }
      split; [by rewrite H4, andb_false_r|done].
Qed.

Lemma compared_not_events : "events" ∉ Trigger.compared.
Proof.
  unfold Trigger.compared. rewrite !elem_of_cons, elem_of_nil.
  intros H. repeat (destruct H as [H|H]; [discriminate H|]). done.
Qed.

(** Triggers with the same set of events and equal compared attributes:
    [diff_map] changes nothing and returns no statement of its own. *)
Lemma diff_map_same (h : heap) (self intrg : pyobject)
  (events inevents : list string) :
  attrs self !! "events" = Some (PList events) →
  attrs intrg !! "events" = Some (PList inevents) →
  (∀ e, e ∈ events ↔ e ∈ inevents) →
  same_attrs self intrg = true →
  Trigger.diff_map h self intrg
  = Ok (self, [Stmts (diff_privileges self intrg);
               Stmts (diff_description self intrg)]).
Proof.
  intros He Hie Hset Hsame. unfold Trigger.diff_map.
  destruct (diff_attrs_foldl intrg Trigger.compared true self)
    as (_ & _ & _ & H4 & H5).
  destruct (foldl (Trigger.diff_attr intrg) (true, self) Trigger.compared)
    as [same self1].
  cbn [fst snd] in H4, H5. unfold same_attrs in Hsame.
  rewrite (H5 Hsame), H4, Hsame. cbn [andb negb].
  rewrite (getattr_Some _ _ _ He), (getattr_Some _ _ _ Hie).
  cbn [mbind result_bind py_set py_iter].
  rewrite bool_decide_eq_false_2; [done|].
  intros Hne. apply Hne. apply set_eq. intros e.
  by rewrite !elem_of_list_to_set.
Qed.

(** C10.  Two triggers whose lists of events hold the same names, in
    whatever order, and whose other compared attributes are equal:
    [diff_map] returns what [diff_privileges] and [diff_description]
    return and nothing else, no [DROP TRIGGER] and no [CREATE
    TRIGGER], and leaves the trigger as it was. *)
Theorem diff_map_events_as_sets (h : heap) (self intrg : pyobject)
  (events inevents : list string) :
  attrs self !! "events" = Some (PList events) →
  attrs intrg !! "events" = Some (PList inevents) →
  (∀ e, e ∈ events ↔ e ∈ inevents) →
  same_attrs self intrg = true →
  Trigger.diff_map h self intrg
  = Ok (self, [Stmts (diff_privileges self intrg);
               Stmts (diff_description self intrg)]).
Proof. apply diff_map_same. Qed.

End trigger_diff.

Lemma diff_map_events_as_sets_witness :
  Trigger.diff_map (lib := sample_lib) sample_tables sample_trigger
    sample_reordered_trigger
  = Ok (sample_trigger, [Stmts []; Stmts []]).
Proof.
  apply (diff_map_events_as_sets (lib := sample_lib) sample_tables
           sample_trigger sample_reordered_trigger
           ["insert"; "update"] ["update"; "insert"]).
  - reflexivity.
  - reflexivity.
  - intros e. rewrite !elem_of_cons, elem_of_nil. tauto.
  - reflexivity.
Defined.

Section trigger_drop_create.
Context {lib : DbObjectLib}.




End trigger_drop_create.



(** ** Comparing an object with itself *)

Section unchanged.
Context {lib : DbObjectLib}.

Lemma same_attrs_refl t : same_attrs t t = true.
Proof.
  unfold same_attrs. apply forallb_forall. intros a _. apply py_eq_refl.
Qed.

(** A trigger compared with itself is neither dropped nor created. *)
Lemma diff_map_unchanged h t events :
  attrs t !! "events" = Some (PList events) →
  Trigger.diff_map h t t
  = Ok (t, [Stmts (diff_privileges t t); Stmts (diff_description t t)]).
Proof.
  intros He. apply (diff_map_same h t t events events He He); [done|].
  apply same_attrs_refl.
Qed.

(** The first part of [alter]: the sources of a function and of itself
    do not differ, so the function is not created again. *)
Lemma alter_source_unchanged h f :
  (if hasattr f "source" && hasattr f "source" then
     source ← getattr f "source";
     insource ← getattr f "source";
     if py_ne source insource then
       '(c, h') ← Function.create h f insource;
       Ok ([Stmts c], h')
     else Ok ([], h)
   else Ok ([], h)) = Ok ([], h).
Proof.
  destruct (attrs f !! "source") as [v|] eqn:Ev.
  - rewrite (hasattr_Some _ _ _ Ev), (getattr_Some _ _ _ Ev).
    cbn [andb mbind result_bind]. by rewrite py_ne_refl.
  - by rewrite (proj2 (hasattr_false _ _) Ev).
Qed.

(** A function that is not leakproof, altered into itself, gets no
    statement but those of the base class. *)
Lemma alter_unchanged_not_leakproof h f no_owner :
  is_True (getattr_d f "leakproof" PNone) = false →
  Function.alter h f f no_owner
  = Ok ([Stmts (base_alter f f no_owner)], h).
Proof.
  intros Hl. unfold Function.alter. rewrite alter_source_unchanged.
  cbn [mbind result_bind]. rewrite Hl, !andb_false_r. done.
Qed.

(** C1, at the input on which it fails.  A function that is leakproof,
    altered into itself: [alter] returns the statement [ALTER FUNCTION
    <identifier> LEAKPROOF], and then what the base class returns. *)
Theorem alter_unchanged_leakproof (h : heap) (f : pyobject)
  (no_owner : bool) (arguments : pyval) :
  attrs f !! "leakproof" = Some (PBool true) →
  attrs f !! "arguments" = Some arguments →
  Function.alter h f f no_owner
  = Ok ([Sql ("ALTER FUNCTION " +:+ qualname f +:+ "(" +:+ pystr arguments
              +:+ ")" +:+ " LEAKPROOF");
         Stmts (base_alter f f no_owner)], h).
Proof.
  intros Hl Ha. unfold Function.alter. rewrite alter_source_unchanged.
  cbn [mbind result_bind].
  rewrite (hasattr_Some _ _ _ Hl), (getattr_d_Some _ _ _ _ Hl).
  unfold Proc.identifier. rewrite (getattr_Some _ _ _ Ha).
  cbn [mbind result_bind andb].
  change (is_True (PBool true)) with true. cbn [mbind result_bind app].
  by rewrite !str_app_assoc.
Qed.

End unchanged.

Lemma alter_unchanged_leakproof_witness :
  flatten_all <$> (fst <$> Function.alter (lib := sample_lib) no_objects
                             sample_function sample_function false)
  = Ok ["ALTER FUNCTION f1(integer) LEAKPROOF"].
Proof.
  rewrite (alter_unchanged_leakproof (lib := sample_lib) no_objects
             sample_function false (PStr "integer") eq_refl eq_refl).
  reflexivity.
Defined.

(** * More properties of the code *)

(** ** Keys and specifications that [ProcDict.from_map] refuses *)

Lemma str_contains_false sub s :
  str_contains sub s = false → find_list (chars sub) (chars s) = None.
Proof.
  unfold str_contains. intros H. apply bool_decide_eq_false in H.
  by apply eq_None_not_Some.
Qed.

Section refused_keys.
Context {lib : DbObjectLib}.

(** X1.  A key with no space, a key whose first word is neither
    [function] nor [aggregate], and a key whose rest has no [(] or does
    not end with [)]: [from_map] raises [KeyError] on it whatever the
    specification is, and so does the loading of a map of which it is
    an entry, once the entries before it are loaded. *)
Theorem from_map_malformed_key (schema key : string)
  (infunc : option (gmap string pyval)) :
  str_contains " " key = false
  ∨ (∃ kind rest,
       key = kind +:+ " " +:+ rest
       ∧ (" "%char ∉ chars kind)
       ∧ (kind ∉ ["function"; "aggregate"]
          ∨ str_contains "(" rest = false
          ∨ str_slice rest (Some (-1)%Z) None ≠ ")")) →
  ProcDict.from_map_entry schema key infunc = Raise KeyError
  ∧ ∀ self pre post d,
      ProcDict.from_map self schema pre = Ok d →
      ProcDict.from_map self schema (pre ++ (key, infunc) :: post)
      = Raise KeyError.
Proof.
  intros Hkey.
  assert (He : ProcDict.from_map_entry schema key infunc = Raise KeyError).
  { unfold ProcDict.from_map_entry.
    destruct Hkey as [Hns|(kind & rest & -> & Hk & Hbad)].
    - unfold str_partition. rewrite (str_contains_false _ _ Hns).
      rewrite (bool_decide_eq_false_2 ("" = " ")); done.
    - rewrite str_partition_space by done.
      destruct (decide (kind ∈ ["function"; "aggregate"])) as [Hin|Hin].
      + rewrite (bool_decide_eq_true_2 _ Hin).
        rewrite (bool_decide_eq_true_2 (" " = " ")) by done.
        cbn [negb orb].
        destruct Hbad as [Hbad|[Hbad|Hbad]]; [done| |].
        * unfold str_find. rewrite (str_contains_false _ _ Hbad).
          by rewrite Z.eqb_refl.
        * rewrite (bool_decide_eq_false_2 _ Hbad).
          by rewrite orb_true_r.
      + rewrite (bool_decide_eq_false_2 _ Hin). by rewrite orb_true_r. }
  split; [done|]. intros self pre post d Hpre. by eapply from_map_raises.
Qed.

(** X2.  An entry with a well-formed key and no specification, or an
    empty one, raises [ValueError], for an aggregate as for a
    function. *)
Theorem from_map_no_specification (schema kind name args : string)
  (infunc : option (gmap string pyval)) :
  kind ∈ ["function"; "aggregate"] →
  infunc = None ∨ infunc = Some ∅ →
  ProcDict.from_map_entry schema (proc_key kind name args) infunc
  = Raise ValueError
  ∧ ∀ self pre post d,
      ProcDict.from_map self schema pre = Ok d →
      ProcDict.from_map self schema
        (pre ++ (proc_key kind name args, infunc) :: post)
      = Raise ValueError.
Proof.
  intros Hk Hin.
  pose proof (from_map_entry_unspecified schema kind name args infunc Hk Hin)
    as He.
  split; [done|]. intros self pre post d Hpre. by eapply from_map_raises.
Qed.

End refused_keys.

(** A value is none of the elements of a list written out. *)
Ltac not_in_list :=
  simpl; rewrite ?elem_of_cons, ?elem_of_nil; intros H;
  repeat (destruct H as [H|H]; [discriminate H|]); exact H.

Lemma from_map_malformed_key_witness :
  ProcDict.from_map_entry (lib := sample_lib) "public" "procedure p()"
    (Some sample_entry) = Raise KeyError
  ∧ ProcDict.from_map_entry (lib := sample_lib) "public" "function f(integer"
      (Some sample_entry) = Raise KeyError.
Proof.
  split.
  - refine (proj1 (from_map_malformed_key (lib := sample_lib) "public"
                     "procedure p()" (Some sample_entry) _)).
    right. exists "procedure", "p()". split; [reflexivity|].
    split; [not_in_list|]. left. not_in_list.
  - refine (proj1 (from_map_malformed_key (lib := sample_lib) "public"
                     "function f(integer" (Some sample_entry) _)).
    right. exists "function", "f(integer". split; [reflexivity|].
    split; [not_in_list|]. right. right. discriminate.
Defined.

Lemma from_map_no_specification_witness :
  ProcDict.from_map_entry (lib := sample_lib) "public"
    (proc_key "aggregate" "total" "integer") (Some ∅) = Raise ValueError.
Proof.
  refine (proj1 (from_map_no_specification (lib := sample_lib) "public"
                   "aggregate" "total" "integer" (Some ∅) _ _)).
  - right. left.
  - right. reflexivity.
Defined.

(** ** Loading an entry and finding it again *)

Lemma str_find_char name rest c :
  c ∉ chars name →
  str_find (name +:+ String c rest) (String c "")
  = Z.of_nat (length (chars name)).
Proof.
  intros Hc. unfold str_find. rewrite chars_app. simpl.
  by rewrite find_list_char.
Qed.

(** The name and the arguments that [ProcDict.from_map] reads in a
    signature whose name has no [(]. *)
Lemma signature_parse name args :
  "("%char ∉ chars name →
  let fn := name +:+ "(" +:+ args +:+ ")" in
  str_slice fn None (Some (str_find fn "(")) = name
  ∧ str_slice fn (Some (str_find fn "(" + 1)%Z) (Some (-1)%Z) = args.
Proof.
  intros Hn fn. unfold fn.
  change ("(" +:+ args +:+ ")") with (String "("%char (args +:+ ")")).
  rewrite str_find_char by done.
  set (n := length (chars name)).
  assert (Hl : chars (name +:+ String "("%char (args +:+ ")"))
               = chars name ++ "("%char :: chars args ++ [")"%char]).
  { rewrite chars_app. simpl. by rewrite chars_app. }
  assert (Hlen : length (chars (name +:+ String "("%char (args +:+ ")")))
                 = n + 1 + length (chars args) + 1).
  { rewrite Hl, length_app. simpl. rewrite length_app. simpl. lia. }
  split.
  - rewrite str_slice_to by lia. rewrite Hl. subst n.
    by rewrite take_app_length, str_chars.
  - replace (Z.of_nat n + 1)%Z with (Z.of_nat (n + 1)) by lia.
    rewrite str_slice_but_last by lia. rewrite Hlen, Hl.
    replace (n + 1 + length (chars args) + 1 - 1 - (n + 1))
      with (length (chars args)) by lia.
    subst n. rewrite <- drop_drop, drop_app_length.
    change (drop 1 ("("%char :: chars args ++ [")"%char]))
      with (chars args ++ [")"%char]).
    by rewrite take_app_length, str_chars.
Qed.

Section stored.
Context {lib : DbObjectLib}.

(** Where [from_map] stores the object it makes for an entry. *)
Lemma from_map_entry_stored schema key infunc sch fnc args func :
  ProcDict.from_map_entry schema key infunc = Ok (sch, fnc, args, func) →
  let fn := (str_partition key " ").2 in
  sch = schema
  ∧ fnc = str_slice fn None (Some (str_find fn "("))
  ∧ args = str_slice fn (Some (str_find fn "(" + 1)%Z) (Some (-1)%Z).
Proof.
  unfold ProcDict.from_map_entry.
  destruct (str_partition key " ") as [[kind spc] fn].
  destruct (negb (bool_decide (spc = " ")) || _); [done|].
  destruct ((str_find fn "(" =? -1)%Z || _); [done|].
  destruct infunc as [m|]; [|done].
  destruct (bool_decide (m = ∅)); [done|].
  destruct (ProcDict.set_attrs _ m) as [func1|]; [|done].
  cbn [mbind result_bind].
  destruct (if hasattr func1 "volatility" then _ else Ok func1)
    as [func2|]; [|done].
  cbn [mbind result_bind].
  destruct (if bool_decide (cls func2 = Function) then _ else Ok ())
    as [[]|]; [|done].
  cbn [mbind result_bind].
  destruct (match m !! "privileges" with Some _ => _ | None => Ok func2 end)
    as [func3|]; [|done].
  cbn [mbind result_bind]. by intros [= <- <- <- <-].
Qed.

(** X3.  The entry [<kind> <name>(<arguments>)] loaded last, where the
    name has no [(] and the arguments are written with [, ] between
    them, is stored under the schema, that name and those arguments, and
    [find] returns the object made for it from the name and the list of
    arguments. *)
Theorem find_loaded (split1 : string → string * string)
  (self : gmap (string * string * string) pyobject)
  (schema kind name fname : string) (argl : list string)
  (spec : option (gmap string pyval))
  (pre : list (string * option (gmap string pyval)))
  (d : gmap (string * string * string) pyobject) :
  kind ∈ ["function"; "aggregate"] →
  "("%char ∉ chars name →
  split1 fname = (schema, name) →
  ProcDict.from_map self schema
    (pre ++ [(proc_key kind name (str_join ", " argl), spec)]) = Ok d →
  ∃ func,
    ProcDict.from_map_entry schema
      (proc_key kind name (str_join ", " argl)) spec
    = Ok (schema, name, str_join ", " argl, func)
    ∧ ProcDict_find split1 d fname argl = Some func.
Proof.
  intros Hk Hn Hsp Hd. unfold ProcDict.from_map in Hd.
  rewrite foldl_app in Hd. cbn [foldl] in Hd.
  destruct (foldl _ (Ok self) pre) as [d0|e]; [|done].
  cbn [mbind result_bind fst snd] in Hd.
  destruct (ProcDict.from_map_entry schema _ spec)
    as [[[[sch fnc] args] func]|] eqn:He; [|done].
  cbn [mbind result_bind] in Hd. injection Hd as <-.
  destruct (from_map_entry_stored _ _ _ _ _ _ _ He) as (-> & Hf & Ha).
  unfold proc_key in Hf, Ha.
  rewrite str_partition_space in Hf, Ha by by apply kind_no_space.
  cbn [snd] in Hf, Ha.
  destruct (signature_parse name (str_join ", " argl) Hn) as [H1 H2].
  rewrite H1 in Hf. rewrite H2 in Ha. subst fnc args.
  exists func. split; [done|].
  unfold ProcDict_find. rewrite Hsp. apply lookup_insert_eq.
Qed.

End stored.

Lemma find_loaded_witness :
  ∃ func,
    ProcDict.from_map_entry (lib := sample_lib) "public"
      (proc_key "function" "f" (str_join ", " ["integer"; "text"]))
      (Some sample_entry)
    = Ok ("public", "f", str_join ", " ["integer"; "text"], func)
    ∧ ProcDict_find (λ name, ("public", name))
        (<[("public", "f", "integer, text") :=
             object Function
               [("schema", PStr "public"); ("name", PStr "f");
                ("arguments", PStr "integer, text");
                ("language", PStr "sql"); ("returns", PStr "integer");
                ("volatility", PStr "i"); ("source", PStr "select 1")]]> ∅)
        "f" ["integer"; "text"] = Some func.
Proof.
  refine (find_loaded (lib := sample_lib) (λ name, ("public", name)) ∅
            "public" "function" "f" "f" ["integer"; "text"]
            (Some sample_entry) [] _ _ _ eq_refl _).
  - left.
  - not_in_list.
  - vm_compute. reflexivity.
Defined.

(** ** Dependencies of a defining function, once resolved *)

Section resolved.
Context {lib : DbObjectLib}.

Lemma get_deps_result h self deps order :
  NoDup order →
  (∀ r, r ∈ order ↔ r ∈ deps) →
  Function.get_deps h self deps order
  = Ok (deps ∖ list_to_set (filter (λ r, designates h r self = true) order),
        from_option (λ t, setattr self "_defining" (PRef t)) self
          (last (filter (λ r, designates h r self = true) order))).
Proof.
  intros Hnd Hin. unfold Function.get_deps.
  apply get_deps_foldl; [done|]. by intros r ?%Hin.
Qed.

Lemma designates_from_option h r self o :
  designates h r (from_option (λ t, setattr self "_defining" (PRef t)) self o)
  = designates h r self.
Proof. destruct o; [apply designates_setattr|done]. Qed.

(** X4.  [get_deps] has nothing left to do on what it returns: run on
    the set and the function it has returned, in whatever order, it
    returns them as they are. *)
Theorem get_deps_stable (h : heap) (self : pyobject) (deps : gset ref)
  (order : list ref) (deps' : gset ref) (self' : pyobject)
  (order' : list ref) :
  NoDup order →
  (∀ r, r ∈ order ↔ r ∈ deps) →
  NoDup order' →
  (∀ r, r ∈ order' ↔ r ∈ deps') →
  Function.get_deps h self deps order = Ok (deps', self') →
  Function.get_deps h self' deps' order' = Ok (deps', self').
Proof.
  intros Hnd Hin Hnd' Hin'. rewrite get_deps_result by done.
  intros [= Hd Hs]. rewrite get_deps_result by done.
  assert (Hf : filter (λ r, designates h r self' = true) order' = []).
  { destruct (filter _ order') as [|r k] eqn:Ef; [done|]. exfalso.
    assert (Hr : r ∈ filter (λ r, designates h r self' = true) order')
      by (rewrite Ef; by left).
    apply list_elem_of_filter in Hr as [Hdes Hr].
    apply Hin' in Hr. rewrite <- Hd in Hr.
    apply elem_of_difference in Hr as [Hr1 Hr2].
    rewrite <- Hs, designates_from_option in Hdes. apply Hr2.
    apply elem_of_list_to_set, list_elem_of_filter. split; [done|].
    by apply Hin. }
  rewrite Hf. simpl. f_equal. f_equal. set_solver.
Qed.

(** X5.  A function that [get_deps] has found to be a conversion
    function of one of the types it depends on is dropped with no
    statement: the loop that breaks the cycle and [drop] fit
    together. *)
Theorem defining_function_not_dropped (h : heap) (self : pyobject)
  (deps : gset ref) (order : list ref) (t : ref) :
  NoDup order →
  (∀ r, r ∈ order ↔ r ∈ deps) →
  t ∈ deps →
  designates h t self = true →
  ∃ deps' self',
    Function.get_deps h self deps order = Ok (deps', self')
    ∧ Function.drop self' = [].
Proof.
  intros Hnd Hin Ht Hd. rewrite get_deps_result by done.
  eexists _, _. split; [done|].
  assert (Hne : is_Some (last (filter (λ r, designates h r self = true)
                                 order))).
  { apply last_is_Some. intros Hnil.
    assert (Hf : t ∈ filter (λ r, designates h r self = true) order).
    { apply list_elem_of_filter. split; [done|]. by apply Hin. }
    rewrite Hnil in Hf. by apply elem_of_nil in Hf. }
  destruct Hne as [t' ->]. simpl.
  unfold Function.drop. by rewrite getattr_d_setattr.
Qed.

End resolved.

Lemma sample_types_order :
  NoDup [7%positive; 8%positive]
  ∧ ∀ r, r ∈ [7%positive; 8%positive]
         ↔ r ∈ ({[7%positive; 8%positive]} : gset ref).
Proof.
  split.
  - apply NoDup_cons. split; [not_in_list|apply NoDup_singleton].
  - intros r. rewrite !elem_of_cons, elem_of_nil, elem_of_union,
      !elem_of_singleton. tauto.
Defined.

Lemma get_deps_stable_witness :
  Function.get_deps (lib := sample_lib) sample_types
    (setattr sample_conv "_defining" (PRef 8)) ∅ []
  = Ok (∅, setattr sample_conv "_defining" (PRef 8)).
Proof.
  refine (get_deps_stable (lib := sample_lib) sample_types sample_conv
            {[7%positive; 8%positive]} [7%positive; 8%positive]
            ∅ (setattr sample_conv "_defining" (PRef 8)) []
            (proj1 sample_types_order) (proj2 sample_types_order) _ _ _).
  - apply NoDup_nil_2.
  - intros r. rewrite elem_of_nil. set_solver.
  - vm_compute. reflexivity.
Defined.

Lemma defining_function_not_dropped_witness :
  ∃ deps' self',
    Function.get_deps (lib := sample_lib) sample_types sample_conv
      {[7%positive; 8%positive]} [7%positive; 8%positive]
    = Ok (deps', self')
    ∧ Function.drop (lib := sample_lib) self' = [].
Proof.
  refine (defining_function_not_dropped (lib := sample_lib) sample_types
            sample_conv {[7%positive; 8%positive]} [7%positive; 8%positive]
            7%positive (proj1 sample_types_order) (proj2 sample_types_order)
            _ eq_refl).
  apply elem_of_union. left. apply elem_of_singleton. reflexivity.
Defined.

(** ** A trigger after [diff_map] *)

Section settled.
Context {lib : DbObjectLib}.

(** X6.  Whatever [diff_map] returns for a trigger and a desired
    trigger, the trigger it leaves agrees with the desired one: a
    second [diff_map] against the same desired trigger changes nothing
    and returns neither [DROP TRIGGER] nor [CREATE TRIGGER]. *)
Theorem diff_map_settles (h : heap) (self intrg self' : pyobject)
  (events inevents : list string) (stmts : list stmt) :
  attrs self !! "events" = Some (PList events) →
  attrs intrg !! "events" = Some (PList inevents) →
  Trigger.diff_map h self intrg = Ok (self', stmts) →
  Trigger.diff_map h self' intrg
  = Ok (self', [Stmts (diff_privileges self' intrg);
                Stmts (diff_description self' intrg)]).
Proof.
  intros He Hie. unfold Trigger.diff_map at 1.
  destruct (diff_attrs_foldl intrg Trigger.compared true self)
    as (_ & H2 & H3 & _ & _).
  destruct (foldl (Trigger.diff_attr intrg) (true, self) Trigger.compared)
    as [same self1].
  cbn [fst snd] in H2, H3.
  assert (He1 : attrs self1 !! "events" = Some (PList events)).
  { rewrite H2; [done|]. apply compared_not_events. }
  rewrite (getattr_Some _ _ _ He1), (getattr_Some _ _ _ Hie).
  cbn [mbind result_bind py_set py_iter].
  destruct (bool_decide (list_to_set events
                         ≠@{gset string} list_to_set inevents)) eqn:Eb.
  - destruct (if negb false then _ else Ok []) as [pre|]; [|done].
    cbn [mbind result_bind]. intros [= <- _].
    apply (diff_map_same h _ intrg inevents inevents); [|done|done|].
    + simpl. apply lookup_insert_eq.
    + unfold same_attrs. apply forallb_forall. intros a Ha.
      apply list_elem_of_In in Ha. unfold getattr_d at 1.
      rewrite attrs_setattr_ne; [by apply H3|].
      intros <-. by apply compared_not_events in Ha.
  - destruct (if negb same then _ else Ok []) as [pre|]; [|done].
    cbn [mbind result_bind]. intros [= <- _].
    apply (diff_map_same h _ intrg events inevents); [done|done| |].
    + apply bool_decide_eq_false in Eb. apply dec_stable in Eb. intros e.
      by rewrite <- (elem_of_list_to_set (C := gset string) e events), Eb,
        elem_of_list_to_set.
    + unfold same_attrs. apply forallb_forall. intros a Ha.
      apply list_elem_of_In in Ha. by apply H3.
Qed.

End settled.

Lemma diff_map_settles_witness :
  ∃ self',
    (fst <$> Trigger.diff_map (lib := sample_lib) sample_tables
               sample_trigger sample_after_trigger) = Ok self'
    ∧ Trigger.diff_map (lib := sample_lib) sample_tables self'
        sample_after_trigger
      = Ok (self', [Stmts []; Stmts []]).
Proof.
  destruct (Trigger.diff_map (lib := sample_lib) sample_tables
              sample_trigger sample_after_trigger)
    as [[self' stmts]|] eqn:Hd; [|vm_compute in Hd; discriminate Hd].
  exists self'. split; [reflexivity|].
  exact (diff_map_settles (lib := sample_lib) sample_tables sample_trigger
           sample_after_trigger self' ["insert"; "update"]
           ["insert"; "update"] stmts eq_refl eq_refl Hd).
Defined.

(** ** A change of the leakproof flag *)

Section leakproof_change.
Context {lib : DbObjectLib}.

Lemma has_is_True o a :
  hasattr o a && is_True (getattr_d o a PNone)
  = is_True (getattr_d o a PNone).
Proof.
  unfold hasattr, getattr_d. destruct (attrs o !! a) as [v|].
  - rewrite bool_decide_eq_true_2; [done|]. by eexists.
  - reflexivity.
Qed.

Lemma alter_same_source h f infunction :
  attrs f !! "source" = attrs infunction !! "source" →
  (if hasattr f "source" && hasattr infunction "source" then
     source ← getattr f "source";
     insource ← getattr infunction "source";
     if py_ne source insource then
       '(c, h') ← Function.create h f insource;
       Ok ([Stmts c], h')
     else Ok ([], h)
   else Ok ([], h)) = Ok ([], h).
Proof.
  intros Hs. unfold hasattr, getattr. rewrite <- Hs.
  destruct (attrs f !! "source") as [v|].
  - rewrite bool_decide_eq_true_2 by by eexists.
    cbn [andb mbind result_bind]. by rewrite py_ne_refl.
  - rewrite bool_decide_eq_false_2; [done|]. by intros [? ?].
Qed.

(** X7.  Between a function and an input function with the same source:
    when the function is leakproof and the input is not, [alter]
    returns [ALTER FUNCTION <name>(<arguments>) NOT LEAKPROOF]; when
    the input is leakproof and the function is not, it returns [ALTER
    FUNCTION <name> LEAKPROOF], with the qualified name alone and no
    arguments.  In both cases what the base class returns follows, and
    the function is not created again. *)
Theorem alter_leakproof_change (h : heap) (self infunction : pyobject)
  (no_owner : bool) (arguments : pyval) :
  attrs self !! "source" = attrs infunction !! "source" →
  attrs self !! "arguments" = Some arguments →
  (is_True (getattr_d self "leakproof" PNone) = true →
   is_True (getattr_d infunction "leakproof" PNone) = false →
   Function.alter h self infunction no_owner
   = Ok ([Sql ("ALTER FUNCTION " +:+ qualname self +:+ "("
               +:+ pystr arguments +:+ ")" +:+ " NOT LEAKPROOF");
          Stmts (base_alter self infunction no_owner)], h))
  ∧ (is_True (getattr_d self "leakproof" PNone) = false →
     is_True (getattr_d infunction "leakproof" PNone) = true →
     Function.alter h self infunction no_owner
     = Ok ([Sql ("ALTER FUNCTION " +:+ qualname self +:+ " LEAKPROOF");
            Stmts (base_alter self infunction no_owner)], h)).
Proof.
  intros Hs Ha. unfold Function.alter.
  rewrite (alter_same_source h self infunction Hs).
  cbn [mbind result_bind]. rewrite !has_is_True.
  unfold Proc.identifier. rewrite (getattr_Some _ _ _ Ha).
  split; intros -> ->; cbn [mbind result_bind app]; [|done].
  by rewrite !str_app_assoc.
Qed.

End leakproof_change.

Lemma alter_leakproof_change_witness :
  fst <$> Function.alter (lib := sample_lib) no_objects sample_function
            (setattr sample_function "leakproof" (PBool false)) false
  = Ok [Sql "ALTER FUNCTION f1(integer) NOT LEAKPROOF"; Stmts []].
Proof.
  rewrite (proj1 (alter_leakproof_change (lib := sample_lib) no_objects
                    sample_function
                    (setattr sample_function "leakproof" (PBool false))
                    false (PStr "integer") eq_refl eq_refl)
             eq_refl eq_refl).
  reflexivity.
Defined.

(** ** The volatility, written and read *)


Section volatility.
Context {lib : DbObjectLib}.



End volatility.


(** ** What a trigger cannot do without *)

Section trigger_missing.
Context {lib : DbObjectLib}.

(** X9.  The dependencies of a trigger cannot be computed when its
    table is not among the tables of the database, nor, for a trigger
    that is not one of the augmenter and whose function is not a
    [tsvector_update_trigger], when the function is not among the
    functions of the database with no arguments: [get_implied_deps]
    raises [KeyError]. *)
Theorem trigger_deps_missing (db : database) (self : pyobject)
  (sch tbl : string) :
  attrs self !! "schema" = Some (PStr sch) →
  attrs self !! "table" = Some (PStr tbl) →
  (tables db !! (sch, tbl) = None →
   Trigger.get_implied_deps db self = Raise KeyError)
  ∧ (∀ t p fschema fname,
       tables db !! (sch, tbl) = Some t →
       hasattr self "_iscfg" = false →
       attrs self !! "procedure" = Some (PStr p) →
       split_schema_obj p sch = (fschema, fname) →
       str_startswith fname "tsvector_update_trigger" = false →
       functions db !! (fschema, fname, "") = None →
       Trigger.get_implied_deps db self = Raise KeyError).
Proof.
  intros Hs Ht. unfold Trigger.get_implied_deps.
  rewrite (getattr_Some _ _ _ Hs), (getattr_Some _ _ _ Ht).
  cbn [mbind result_bind Trigger.key_part].
  split.
  - intros Hn.
    assert (Hl : Trigger.lookup_key (tables db) (sch, tbl) = Raise KeyError)
      by (unfold Trigger.lookup_key; by rewrite Hn).
    by rewrite Hl.
  - intros t p fschema fname Htbl Hcfg Hp Hsp Hpre Hf.
    assert (Hl : Trigger.lookup_key (tables db) (sch, tbl) = Ok t)
      by (unfold Trigger.lookup_key; by rewrite Htbl).
    rewrite Hl. cbn [mbind result_bind].
    rewrite Hcfg, (getattr_Some _ _ _ Hp). cbn [mbind result_bind].
    rewrite Hsp, Hpre. cbn [negb].
    assert (Hm : Trigger.lookup_key (functions db) (fschema, fname, "")
                 = Raise KeyError)
      by (unfold Trigger.lookup_key; by rewrite Hf).
    by rewrite Hm.
Qed.

End trigger_missing.

Lemma trigger_deps_missing_witness :
  Trigger.get_implied_deps (lib := sample_lib)
    (Database {[ ("public", "t1") := 1%positive ]} ∅) sample_trigger
  = Raise KeyError.
Proof.
  refine (proj2 (trigger_deps_missing (lib := sample_lib)
                   (Database {[ ("public", "t1") := 1%positive ]} ∅)
                   sample_trigger "public" "t1" eq_refl eq_refl)
            1%positive "f_audit" "public" "f_audit" eq_refl eq_refl eq_refl
            eq_refl eq_refl eq_refl).
Defined.

(** ** Triggers that are not constraint triggers *)

Section not_constraint.
Context {lib : DbObjectLib}.

Lemma hasattr_setattr_ne o a b v :
  a ≠ b → hasattr (setattr o a v) b = hasattr o b.
Proof. intros H. unfold hasattr. by rewrite attrs_setattr_ne. Qed.

Lemma getattr_setattr_ne o a b v :
  a ≠ b → getattr (setattr o a v) b = getattr o b.
Proof. intros H. unfold getattr. by rewrite attrs_setattr_ne. Qed.

Lemma getattr_d_setattr_ne o a b v d :
  a ≠ b → getattr_d (setattr o a v) b d = getattr_d o b d.
Proof. intros H. unfold getattr_d. by rewrite attrs_setattr_ne. Qed.

(** X10.  For a trigger that is not a constraint trigger (no attribute
    [constraint], or one that is not true), the attributes [deferrable]
    and [initially_deferred] have no part in the statement of
    [create]: whatever they are set to, the statement is the same. *)
Theorem create_ignores_deferrable (h : heap) (self : pyobject)
  (a : string) (v : pyval) :
  truthy (getattr_d self "constraint" PNone) = false →
  a = "deferrable" ∨ a = "initially_deferred" →
  Trigger.create_body h (setattr self a v) = Trigger.create_body h self.
Proof.
  intros Hc Ha.
  assert (Hne : ∀ b, b ∈ ["constraint"; "events"; "columns"; "condition";
                          "name"; "timing"; "_table"; "level"; "procedure"] →
                     a ≠ b).
  { intros b Hb ->. revert Hb. destruct Ha as [-> | ->]; not_in_list. }
  unfold Trigger.create_body, Trigger.quoted_name, Trigger.table_qualname.
  rewrite !(getattr_d_setattr_ne _ a "constraint")
    by (apply Hne; by repeat constructor).
  rewrite Hc, !andb_false_r.
  by rewrite !hasattr_setattr_ne, !getattr_setattr_ne
    by (apply Hne; by repeat constructor).
Qed.

End not_constraint.

Lemma create_ignores_deferrable_witness :
  Trigger.create_body (lib := sample_lib) sample_tables
    (setattr sample_trigger "deferrable" (PBool true))
  = Trigger.create_body (lib := sample_lib) sample_tables sample_trigger.
Proof.
  refine (create_ignores_deferrable (lib := sample_lib) sample_tables
            sample_trigger "deferrable" (PBool true) eq_refl _).
  left. reflexivity.
Defined.

(** ** Loading an operator family and finding it again *)

(** [rfind] returns the occurrence after which there is no other. *)
Lemma rfind_list_exact sub a b :
  (∀ j, length a < j → ¬ sub `prefix_of` drop j (a ++ sub ++ b)) →
  rfind_list sub (a ++ sub ++ b) = Some (length a).
Proof.
  intros Hlater.
  destruct (rfind_list_last sub a b) as (i & Hi & Hge).
  rewrite Hi. f_equal.
  destruct (decide (i = length a)) as [|Hne]; [done|].
  exfalso. apply (Hlater i); [lia|].
  apply rfind_list_Some in Hi.
  set (l := a ++ sub ++ b) in *.
  destruct (decide (i ≤ length l)) as [Hle|Hgt].
  - exists (drop (i + length sub) l).
    rewrite Hi at 1. rewrite drop_app_length'; [done|].
    rewrite length_take. lia.
  - pose proof (f_equal length Hi) as Hlen.
    rewrite !length_app, length_take in Hlen.
    assert (Hs : length sub = 0) by lia.
    destruct sub; [|done]. apply prefix_nil.
Qed.

(** The last [ using ] of a key is the one before a method that has no
    space. *)
Lemma rfind_using a meth :
  " "%char ∉ chars meth →
  rfind_list (chars " using ") (a ++ chars " using " ++ chars meth)
  = Some (length a).
Proof.
  intros Hm. apply rfind_list_exact. intros j Hj.
  rewrite drop_app_ge by lia.
  remember (j - length a) as k eqn:Hk.
  assert (Hk1 : 1 ≤ k) by lia. clear Hk Hj j.
  do 7 (destruct k as [|k]; [try lia; simpl; intros [r Hr]; try discriminate|]).
  - simpl in Hr. injection Hr as Hr. apply Hm. rewrite Hr.
    do 5 apply list_elem_of_further. apply list_elem_of_here.
  - change (drop (S (S (S (S (S (S (S k))))))) (chars " using " ++ chars meth))
      with (drop k (chars meth)).
    intros [r Hr]. apply Hm.
    assert (Hin : " "%char ∈ drop k (chars meth))
      by (rewrite Hr; by left).
    apply list_elem_of_lookup in Hin as [n Hn].
    rewrite lookup_drop in Hn. by eapply list_elem_of_lookup_2.
Qed.

Section opfam_stored.
Context {lib : DbObjectLib}.

Lemma opfam_key_parse a name meth :
  " "%char ∉ chars meth →
  length (chars a) = 16 →
  let key := a +:+ name +:+ " using " +:+ meth in
  str_rfind key " using " = Z.of_nat (16 + length (chars name))
  ∧ str_slice key (Some 16%Z) (Some (str_rfind key " using ")) = name
  ∧ str_slice key (Some (str_rfind key " using " + 7)%Z) None = meth.
Proof.
  intros Hm Ha key.
  assert (Hl : chars key
               = (chars a ++ chars name) ++ chars " using " ++ chars meth).
  { unfold key. rewrite !chars_app. by rewrite <- app_assoc. }
  assert (Hr : str_rfind key " using " = Z.of_nat (16 + length (chars name))).
  { unfold str_rfind. rewrite Hl, rfind_using by done.
    by rewrite length_app, Ha. }
  assert (Hlen : length (chars key)
                 = 16 + length (chars name) + 7 + length (chars meth)).
  { rewrite Hl, !length_app, Ha. simpl. lia. }
  split; [done|]. rewrite Hr. split.
  - change (Some 16%Z) with (Some (Z.of_nat 16)).
    rewrite (str_slice_between key 16 (16 + length (chars name))) by lia.
    rewrite Hl, <- app_assoc.
    rewrite drop_app_length' by done.
    replace (16 + length (chars name) - 16) with (length (chars name)) by lia.
    by rewrite take_app_length, str_chars.
  - replace (Z.of_nat (16 + length (chars name)) + 7)%Z
      with (Z.of_nat (16 + length (chars name) + 7)) by lia.
    rewrite str_slice_from by lia.
    rewrite Hl, app_assoc.
    rewrite drop_app_length'; [apply str_chars|].
    rewrite !length_app, Ha. simpl. lia.
Qed.

(** X11.  The entry [operator family <name> using <method>], where the
    method has no space, is loaded whatever its specification holds,
    even nothing: the family is stored under the schema, that name and
    that method, with the description and the owner of the
    specification ([None] without them), and [find] returns it from the
    name and the method. *)
Theorem opfam_find_loaded (split1 : string → string * string)
  (self d0 : gmap (string * string * string) pyobject)
  (schema name meth fname : string) (m : gmap string pyval)
  (pre : list (string * option (gmap string pyval))) :
  " "%char ∉ chars meth →
  split1 fname = (schema, name) →
  OperatorFamilyDict.from_map self schema pre = Ok d0 →
  ∃ opfam d,
    OperatorFamilyDict.from_map self schema
      (pre ++ [("operator family " +:+ name +:+ " using " +:+ meth, Some m)])
    = Ok d
    ∧ d = <[(schema, name, meth) := opfam]> d0
    ∧ OperatorFamilyDict_find split1 d fname meth = Some opfam
    ∧ attrs opfam !! "name" = Some (PStr name)
    ∧ attrs opfam !! "schema" = Some (PStr schema)
    ∧ attrs opfam !! "index_method" = Some (PStr meth)
    ∧ attrs opfam !! "description"
      = Some (default PNone (m !! "description"))
    ∧ attrs opfam !! "owner" = Some (default PNone (m !! "owner")).
Proof.
  intros Hm Hsp Hpre.
  set (key := "operator family " +:+ name +:+ " using " +:+ meth).
  destruct (opfam_key_parse "operator family " name meth Hm eq_refl)
    as (Hr & Hopf & Hidx).
  fold key in Hr, Hopf, Hidx.
  assert (Hstart : str_startswith key "operator family " = true).
  { apply bool_decide_eq_true_2. unfold key. rewrite chars_app.
    by eexists. }
  assert (Hcont : str_contains " using " key = true).
  { apply bool_decide_eq_true_2. unfold key.
    change ("operator family " +:+ name +:+ " using " +:+ meth)
      with ("operator family " +:+ (name +:+ (" using " +:+ meth))).
    rewrite !chars_app, app_assoc. apply find_list_occurs. }
  set (base := OperatorFamily.new (PStr name) (PStr schema) (PStr meth)
                 (default PNone (m !! "description"))
                 (default PNone (m !! "owner")) PNone).
  set (opfam := match delete "owner" (delete "description" m) !! "oldname" with
                | Some oldname => setattr base "oldname" oldname
                | None => base
                end).
  assert (He : OperatorFamilyDict.from_map_entry schema key (Some m)
               = Ok (schema, name, meth, opfam)).
  { unfold OperatorFamilyDict.from_map_entry.
    rewrite Hstart, Hcont. cbn [negb orb]. by rewrite Hopf, Hidx. }
  exists opfam, (<[(schema, name, meth) := opfam]> d0).
  split.
  { unfold OperatorFamilyDict.from_map in *. rewrite foldl_app, Hpre.
    cbn [foldl mbind result_bind fst snd]. by rewrite He. }
  split; [done|]. split.
  { unfold OperatorFamilyDict_find. rewrite Hsp. apply lookup_insert_eq. }
  assert (Hattr : ∀ a, a ≠ "oldname" →
                       attrs opfam !! a = attrs base !! a).
  { intros a Ha. unfold opfam.
    destruct (delete "owner" (delete "description" m) !! "oldname"); [|done].
    by apply attrs_setattr_ne. }
  rewrite !Hattr by done. by vm_compute.
Qed.

(** X12.  The key [operator family using <method>], in which the
    [ using ] found is the one that begins with the space after
    [family], is accepted: the family is stored with the empty name, and
    its [extern_key], with two spaces, is not the key it was loaded
    from. *)
Theorem opfam_key_without_name (schema meth : string)
  (m : gmap string pyval) :
  " "%char ∉ chars meth →
  ∃ opfam,
    OperatorFamilyDict.from_map_entry schema
      ("operator family using " +:+ meth) (Some m)
    = Ok (schema, "", meth, opfam)
    ∧ OperatorFamily.extern_key opfam
      = Ok ("operator family  using " +:+ meth)
    ∧ "operator family  using " +:+ meth ≠ "operator family using " +:+ meth.
Proof.
  intros Hm.
  set (key := "operator family using " +:+ meth).
  assert (Hl : chars key
               = chars "operator family" ++ chars " using " ++ chars meth)
    by done.
  assert (Hr : str_rfind key " using " = 15%Z).
  { unfold str_rfind. by rewrite Hl, rfind_using. }
  assert (Hstart : str_startswith key "operator family " = true).
  { apply bool_decide_eq_true_2. by exists (chars ("using " +:+ meth)). }
  assert (Hcont : str_contains " using " key = true).
  { apply bool_decide_eq_true_2. rewrite Hl. apply find_list_occurs. }
  assert (Hlen : length (chars key) = 22 + length (chars meth)).
  { rewrite Hl, !length_app. simpl. lia. }
  assert (Hopf : str_slice key (Some 16%Z) (Some 15%Z) = "").
  { unfold str_slice, clamp, len. cbn [Z.ltb Z.compare].
    rewrite !Z.min_l by lia. done. }
  assert (Hidx : str_slice key (Some (15 + 7)%Z) None = meth).
  { change (15 + 7)%Z with (Z.of_nat 22).
    rewrite str_slice_from by lia.
    change (drop 22 (chars key)) with (chars meth). apply str_chars. }
  set (base := OperatorFamily.new (PStr "") (PStr schema) (PStr meth)
                 (default PNone (m !! "description"))
                 (default PNone (m !! "owner")) PNone).
  set (opfam := match delete "owner" (delete "description" m) !! "oldname" with
                | Some oldname => setattr base "oldname" oldname
                | None => base
                end).
  exists opfam. split.
  { unfold OperatorFamilyDict.from_map_entry. fold key.
    rewrite Hstart, Hcont. cbn [negb orb]. by rewrite Hr, Hopf, Hidx. }
  split.
  - assert (Hattr : ∀ a, a ≠ "oldname" →
                         attrs opfam !! a = attrs base !! a).
    { intros a Ha. unfold opfam.
      destruct (delete "owner" (delete "description" m) !! "oldname");
        [|done].
      by apply attrs_setattr_ne. }
    assert (Hcls : cls opfam = OperatorFamily).
    { unfold opfam.
      by destruct (delete "owner" (delete "description" m) !! "oldname"). }
    unfold OperatorFamily.extern_key, getattr.
    rewrite !Hattr, Hcls by done.
    replace (attrs base !! "name") with (Some (PStr "")) by by vm_compute.
    replace (attrs base !! "index_method") with (Some (PStr meth))
      by by vm_compute.
    done.
  - intros H. discriminate H.
Qed.

End opfam_stored.

Lemma opfam_find_loaded_witness :
  ∃ opfam d,
    OperatorFamilyDict.from_map ∅ "public"
      ([] ++ [("operator family " +:+ "oi_ops" +:+ " using " +:+ "btree",
               Some ∅)]) = Ok d
    ∧ d = <[("public", "oi_ops", "btree") := opfam]> ∅
    ∧ OperatorFamilyDict_find (λ s, ("public", s)) d "oi_ops" "btree"
      = Some opfam
    ∧ attrs opfam !! "name" = Some (PStr "oi_ops")
    ∧ attrs opfam !! "schema" = Some (PStr "public")
    ∧ attrs opfam !! "index_method" = Some (PStr "btree")
    ∧ attrs opfam !! "description" = Some PNone
    ∧ attrs opfam !! "owner" = Some PNone.
Proof.
  refine (opfam_find_loaded (λ s, ("public", s)) ∅ ∅ "public" "oi_ops"
            "btree" "oi_ops" ∅ [] _ eq_refl eq_refl).
  not_in_list.
Defined.

Lemma opfam_key_without_name_witness :
  ∃ opfam,
    OperatorFamilyDict.from_map_entry "public"
      ("operator family using " +:+ "gist") (Some ∅)
    = Ok ("public", "", "gist", opfam)
    ∧ OperatorFamily.extern_key (lib := sample_lib) opfam
      = Ok ("operator family  using " +:+ "gist")
    ∧ "operator family  using " +:+ "gist"
      ≠ "operator family using " +:+ "gist".
Proof.
  refine (opfam_key_without_name (lib := sample_lib) "public" "gist" ∅ _).
  not_in_list.
Defined.

(** ** Replacing a function *)

Section replace.
Context {lib : DbObjectLib}.




End replace.


(** ** Loading a trigger *)

Lemma setattr_same o a v :
  attrs o !! a = Some v → setattr o a v = o.
Proof.
  intros H. destruct o as [c m]. unfold setattr. simpl in *.
  by rewrite insert_id.
Qed.

Lemma union_insert_absorbed (m b : gmap string pyval) k v :
  is_Some (m !! k) → m ∪ <[k := v]> b = m ∪ b.
Proof.
  intros [w Hw]. apply map_eq. intros a. rewrite !lookup_union.
  destruct (decide (a = k)) as [->|Hne].
  - rewrite Hw. by rewrite !union_Some_l.
  - by rewrite lookup_insert_ne.
Qed.

Section trigger_loaded.
Context {lib : DbObjectLib}.

Lemma trigger_from_map_entry_loaded props table schema name trg m :
  m ≠ ∅ →
  (∀ p, p ∈ props → m !! p = None) →
  attrs table !! "schema" = Some schema →
  attrs table !! "name" = Some name →
  TriggerDict.from_map_entry props table trg (Some m)
  = Ok (schema, name, trg,
        PyObject Trigger
          (m ∪ list_to_map [("level", PStr "statement"); ("schema", schema);
                            ("table", name); ("name", PStr trg)])).
Proof.
  intros Hm Hp Hs Hn.
  unfold TriggerDict.from_map_entry.
  rewrite bool_decide_eq_false_2 by done.
  rewrite (getattr_Some _ _ _ Hs), (getattr_Some _ _ _ Hn).
  cbn [mbind result_bind]. unfold TriggerDict.set_attrs.
  assert (Hex : existsb (λ p, bool_decide (is_Some (m !! p))) props = false).
  { apply not_true_is_false. intros Hex.
    apply existsb_exists in Hex as (p & Hin & Hb).
    apply bool_decide_eq_true in Hb. apply list_elem_of_In in Hin.
    rewrite (Hp p Hin) in Hb. by destruct Hb. }
  rewrite Hex. cbn [mbind result_bind].
  set (base := attrs (TriggerDict.new schema name trg)).
  set (trig := PyObject Trigger (m ∪ <["level" := PStr "statement"]> base)).
  change (list_to_map [("level", PStr "statement"); ("schema", schema);
                       ("table", name); ("name", PStr trg)])
    with (<["level" := PStr "statement"]> base).
  fold trig.
  set (t0 := PyObject (cls (TriggerDict.new schema name trg)) (m ∪ base)).
  assert (H1 : (if negb (hasattr t0 "level")
                then setattr t0 "level" (PStr "statement") else t0) = trig).
  { unfold hasattr, t0, trig, setattr. cbn [attrs cls].
    destruct (m !! "level") as [l|] eqn:El.
    - rewrite bool_decide_eq_true_2
        by (exists l; by apply lookup_union_Some_l).
      cbn [negb]. f_equal. symmetry. by apply union_insert_absorbed.
    - assert (Hb : base !! "level" = None) by done.
      rewrite bool_decide_eq_false_2.
      2:{ intros [x Hx]. apply lookup_union_Some_raw in Hx as [Hx|[_ Hx]];
          congruence. }
      cbn [negb]. f_equal. by apply insert_union_r. }
  rewrite H1.
  assert (H2 : ∀ a, match m !! a with
                    | Some v => setattr trig a v
                    | None => trig
                    end = trig).
  { intros a. destruct (m !! a) as [v|] eqn:Ea; [|done].
    apply setattr_same. unfold trig. cbn [attrs].
    by apply lookup_union_Some_l. }
  by rewrite (H2 "oldname"), (H2 "description").
Qed.

(** X14.  An entry of [TriggerDict.from_map] with a specification that
    is not empty and sets no property is loaded after the entries
    before it: the trigger is stored under the schema and the name of
    the table and the key of the entry.  Its attributes are those of
    the specification and, where the specification has none of that
    name, the schema and name of the table and the key of the entry as
    [schema], [table] and [name], and [statement] as [level]; the
    assignments of [oldname] and [description] that end the loop
    change nothing. *)
Theorem trigger_loaded (props : list string) (table : pyobject)
  (schema name : pyval) (trg : string) (m : gmap string pyval)
  (self d0 : gmap (pyval * pyval * string) pyobject)
  (pre : list (string * option (gmap string pyval))) :
  m ≠ ∅ →
  (∀ p, p ∈ props → m !! p = None) →
  attrs table !! "schema" = Some schema →
  attrs table !! "name" = Some name →
  TriggerDict.from_map props self table pre = Ok d0 →
  TriggerDict.from_map props self table (pre ++ [(trg, Some m)])
  = Ok (<[(schema, name, trg) :=
            PyObject Trigger
              (m ∪ list_to_map [("level", PStr "statement");
                                ("schema", schema); ("table", name);
                                ("name", PStr trg)])]> d0).
Proof.
  intros Hm Hp Hs Hn Hpre.
  unfold TriggerDict.from_map in *. rewrite foldl_app, Hpre.
  cbn [foldl mbind result_bind fst snd].
  by rewrite (trigger_from_map_entry_loaded props table schema name trg m).
Qed.

(** X15.  A trigger loaded by [TriggerDict.from_map] from a
    specification with events, a timing and a procedure and no level,
    once it is linked to its table, is created [FOR EACH STATEMENT]:
    the default of [from_map] is the level of the statement that
    [create] returns. *)
Theorem loaded_trigger_for_each_statement (props : list string)
  (table : pyobject) (schema name : pyval) (trg timing : string)
  (evl : list string) (procedure : pyval) (m : gmap string pyval)
  (h : heap) (t : ref) :
  (∀ p, p ∈ props → m !! p = None) →
  attrs table !! "schema" = Some schema →
  attrs table !! "name" = Some name →
  m !! "events" = Some (PList evl) →
  m !! "timing" = Some (PStr timing) →
  m !! "procedure" = Some procedure →
  m !! "level" = None →
  m !! "name" = None →
  (∀ columns, m !! "columns" = Some columns →
              is_ok (py_iter columns) = true) →
  ∃ trig a b,
    TriggerDict.from_map_entry props table trg (Some m)
    = Ok (schema, name, trg, trig)
    ∧ Trigger.create_body h (setattr trig "_table" (PRef t))
      = Ok [Sql (a +:+ "FOR EACH STATEMENT" +:+ b)].
Proof.
  intros Hp Hs Hn He Ht Hpr Hl Hnm Hc.
  assert (Hm : m ≠ ∅) by (intros ->; by rewrite lookup_empty in He).
  set (trig := PyObject Trigger
                 (m ∪ list_to_map [("level", PStr "statement");
                                   ("schema", schema); ("table", name);
                                   ("name", PStr trg)])).
  set (self := setattr trig "_table" (PRef t)).
  assert (Hsp : ∀ a v, a ≠ "_table" → m !! a = Some v →
                       attrs self !! a = Some v).
  { intros a v Ha Hv. unfold self. rewrite attrs_setattr_ne by done.
    unfold trig. cbn [attrs]. by apply lookup_union_Some_l. }
  assert (Hnone : ∀ a, a ≠ "_table" → m !! a = None →
            attrs self !! a
            = (list_to_map [("level", PStr "statement"); ("schema", schema);
                            ("table", name); ("name", PStr trg)]
                 : gmap string pyval) !! a).
  { intros a Ha Hv. unfold self. rewrite attrs_setattr_ne by done.
    unfold trig. cbn [attrs]. by rewrite lookup_union_r. }
  destruct (trigger_create_body_ok h self trg t evl timing "statement"
              procedure) as (constr & evts & defer & cond & Hcb & _).
  - by rewrite Hnone.
  - unfold self, setattr. cbn [attrs]. apply lookup_insert_eq.
  - by apply Hsp.
  - intros columns Hcol. apply Hc. unfold self in Hcol.
    rewrite attrs_setattr_ne in Hcol by done.
    unfold trig in Hcol. cbn [attrs] in Hcol.
    apply lookup_union_Some_raw in Hcol as [Hcol|[_ Hcol]]; [done|].
    by vm_compute in Hcol.
  - by apply Hsp.
  - by rewrite Hnone.
  - by apply Hsp.
  - exists trig,
      ("CREATE " +:+ constr +:+ "TRIGGER " +:+ quote_id trg
       +:+ nl +:+ "    " +:+ str_upper timing +:+ " " +:+ evts
       +:+ " ON " +:+ qualname (h t) +:+ defer +:+ nl +:+ "    "),
      (cond +:+ nl +:+ "    EXECUTE PROCEDURE " +:+ pystr procedure).
    split; [by apply trigger_from_map_entry_loaded|].
    fold self. rewrite Hcb. do 2 f_equal.
    rewrite !str_app_assoc. reflexivity.
Qed.

End trigger_loaded.

Lemma sample_trigger_entry_no_property p :
  p ∈ ["objtype"] → sample_trigger_entry !! p = None.
Proof.
  rewrite elem_of_cons, elem_of_nil. by intros [->|[]].
Qed.

Lemma trigger_loaded_witness :
  TriggerDict.from_map ["objtype"] ∅ (sample_tables 1%positive)
    ([] ++ [("tr1", Some sample_trigger_entry)])
  = Ok (<[(PStr "public", PStr "t1", "tr1") :=
            PyObject Trigger
              (sample_trigger_entry
               ∪ list_to_map [("level", PStr "statement");
                              ("schema", PStr "public");
                              ("table", PStr "t1");
                              ("name", PStr "tr1")])]> ∅).
Proof.
  refine (trigger_loaded ["objtype"] (sample_tables 1%positive)
            (PStr "public") (PStr "t1") "tr1" sample_trigger_entry ∅ ∅ []
            _ sample_trigger_entry_no_property eq_refl eq_refl eq_refl).
  intros H. apply (f_equal (λ m : gmap string pyval, m !! "timing")) in H.
  discriminate H.
Defined.

Lemma loaded_trigger_for_each_statement_witness :
  ∃ trig a b,
    TriggerDict.from_map_entry ["objtype"] (sample_tables 1%positive) "tr1"
      (Some sample_trigger_entry)
    = Ok (PStr "public", PStr "t1", "tr1", trig)
    ∧ Trigger.create_body (lib := sample_lib) sample_tables
        (setattr trig "_table" (PRef 1))
      = Ok [Sql (a +:+ "FOR EACH STATEMENT" +:+ b)].
Proof.
  refine (loaded_trigger_for_each_statement (lib := sample_lib) ["objtype"]
            (sample_tables 1%positive) (PStr "public") (PStr "t1") "tr1"
            "before" ["insert"] (PStr "f_audit()") sample_trigger_entry
            sample_tables 1%positive sample_trigger_entry_no_property
            eq_refl eq_refl eq_refl eq_refl eq_refl eq_refl eq_refl _).
  intros columns H. discriminate H.
Defined.

(** ** Event triggers and the functions they execute *)

Lemma link_event_triggers_snoc split1 self evs e :
  link_event_triggers split1 self (evs ++ [e])
  = link_event_triggers split1 self evs
    ≫= λ d, link_event_trigger split1 d e.
Proof. unfold link_event_triggers. by rewrite foldl_app. Qed.

Lemma executing_snoc split1 evs e k :
  executing split1 (evs ++ [e]) k
  = executing split1 evs k
    ++ (if decide (executed_function split1 e = k)
        then [EventTrigger.name e] else []).
Proof.
  unfold executing. rewrite filter_app, fmap_app. f_equal.
  rewrite filter_cons, filter_nil.
  by destruct (decide (executed_function split1 e = k)).
Qed.

Lemma getattr_setattr_eq o a v : getattr (setattr o a v) a = Ok v.
Proof. unfold getattr, setattr. cbn [attrs]. by rewrite lookup_insert_eq. Qed.

Lemma link_event_trigger_linked split1 d e func l :
  d !! executed_function split1 e = Some (linked l func) →
  hasattr func "event_triggers" = false →
  link_event_trigger split1 d e
  = Ok (<[executed_function split1 e
          := linked (l ++ [EventTrigger.name e]) func]> d).
Proof.
  intros Hd Hf. unfold link_event_trigger. rewrite Hd.
  assert (Hl : linked (l ++ [EventTrigger.name e]) func
               = setattr func "event_triggers"
                   (PList (l ++ [EventTrigger.name e])))
    by by destruct l.
  rewrite Hl. destruct l as [|x l]; cbn [linked].
  - rewrite Hf. cbn [negb]. rewrite getattr_setattr_eq.
    cbn [mbind result_bind]. by rewrite setattr_setattr.
  - assert (Hh : hasattr (setattr func "event_triggers" (PList (x :: l)))
                   "event_triggers" = true).
    { apply bool_decide_eq_true_2. unfold setattr. cbn [attrs].
      rewrite lookup_insert_eq. by eexists. }
    rewrite Hh. cbn [negb]. rewrite getattr_setattr_eq.
    cbn [mbind result_bind]. by rewrite setattr_setattr.
Qed.

Lemma link_event_triggers_result (split1 : string → string * string)
  (self : gmap (string * string * string) pyobject)
  (dbeventtrigs : list EventTrigger.t) :
  (∀ k func, self !! k = Some func →
             hasattr func "event_triggers" = false) →
  (∀ e, e ∈ dbeventtrigs → is_Some (self !! executed_function split1 e)) →
  ∃ d,
    link_event_triggers split1 self dbeventtrigs = Ok d
    ∧ ∀ k, d !! k = linked (executing split1 dbeventtrigs k) <$> self !! k.
Proof.
  intros Hno. induction dbeventtrigs as [|e evs IH] using rev_ind; intros Hin.
  - exists self. split; [done|]. intros k. unfold executing. simpl.
    by destruct (self !! k).
  - destruct IH as (d & Hd & Hk).
    { intros e' He'. apply Hin. apply elem_of_app. by left. }
    destruct (Hin e) as [func Hfunc].
    { apply elem_of_app. right. apply list_elem_of_here. }
    rewrite link_event_triggers_snoc, Hd. cbn [mbind result_bind].
    pose proof (Hk (executed_function split1 e)) as He.
    rewrite Hfunc in He. cbn [fmap option_fmap option_map] in He.
    rewrite (link_event_trigger_linked _ _ _ _ _ He (Hno _ _ Hfunc)).
    eexists. split; [done|]. intros k. rewrite executing_snoc.
    destruct (decide (executed_function split1 e = k)) as [<-|Hne].
    + rewrite lookup_insert_eq, Hfunc. done.
    + rewrite lookup_insert_ne by done. by rewrite app_nil_r.
Qed.

(** X16.  When no function has event triggers linked yet and every
    event trigger executes a function of the dictionary, [link_refs]
    returns from its first loop with the same functions under the same
    keys, each with the names of the event triggers that execute it as
    [event_triggers], in the order of the event triggers, and with no
    such attribute when there is none. *)
Theorem event_triggers_linked (split1 : string → string * string)
  (self : gmap (string * string * string) pyobject)
  (dbeventtrigs : list EventTrigger.t) :
  (∀ k func, self !! k = Some func →
             hasattr func "event_triggers" = false) →
  (∀ e, e ∈ dbeventtrigs → is_Some (self !! executed_function split1 e)) →
  ∃ d,
    link_event_triggers split1 self dbeventtrigs = Ok d
    ∧ ∀ k, d !! k = linked (executing split1 dbeventtrigs k) <$> self !! k.
Proof. apply link_event_triggers_result. Qed.

(** X17.  An event trigger that executes a function the dictionary
    does not have makes [link_refs] raise [KeyError], once the event
    triggers before it are linked. *)
Theorem event_trigger_of_no_function (split1 : string → string * string)
  (self : gmap (string * string * string) pyobject)
  (pre post : list EventTrigger.t) (e : EventTrigger.t) :
  (∀ k func, self !! k = Some func →
             hasattr func "event_triggers" = false) →
  (∀ e', e' ∈ pre → is_Some (self !! executed_function split1 e')) →
  self !! executed_function split1 e = None →
  link_event_triggers split1 self (pre ++ e :: post) = Raise KeyError.
Proof.
  intros Hno Hpre He.
  destruct (link_event_triggers_result split1 self pre Hno Hpre)
    as (d & Hd & Hk).
  unfold link_event_triggers in *. rewrite foldl_app, Hd.
  cbn [foldl mbind result_bind]. unfold link_event_trigger at 2.
  rewrite Hk, He. cbn [fmap option_fmap option_map].
  apply (foldl_result_Raise (link_event_trigger split1)).
Qed.

Lemma sample_functions_not_linked k func :
  sample_functions !! k = Some func → hasattr func "event_triggers" = false.
Proof.
  unfold sample_functions. intros H.
  apply lookup_singleton_Some in H as [_ <-]. reflexivity.
Qed.

Lemma sample_event_triggers_execute e :
  e ∈ sample_event_triggers →
  is_Some (sample_functions !! executed_function sample_split e).
Proof.
  unfold sample_event_triggers. rewrite !elem_of_cons, elem_of_nil.
  intros [->|[->|[]]]; by eexists.
Qed.

Lemma event_triggers_linked_witness :
  ∃ d,
    link_event_triggers sample_split sample_functions sample_event_triggers
    = Ok d
    ∧ ∀ k, d !! k
           = linked (executing sample_split sample_event_triggers k)
               <$> sample_functions !! k.
Proof.
  exact (event_triggers_linked sample_split sample_functions
           sample_event_triggers sample_functions_not_linked
           sample_event_triggers_execute).
Defined.

Lemma event_trigger_of_no_function_witness :
  link_event_triggers sample_split sample_functions
    (sample_event_triggers ++ EventTrigger.Make "et3" "f_other()" :: [])
  = Raise KeyError.
Proof.
  exact (event_trigger_of_no_function sample_split sample_functions
           sample_event_triggers [] (EventTrigger.Make "et3" "f_other()")
           sample_functions_not_linked sample_event_triggers_execute
           eq_refl).
Defined.

(** ** A trigger read from the catalogs *)

(** [find] returns the first occurrence. *)
Lemma find_list_first sub l n p :
  find_list sub l = Some n → p < n → ¬ sub `prefix_of` drop p l.
Proof.
  revert n p. induction l as [|c l IH]; intros n p; simpl.
  - destruct (decide (sub `prefix_of` [])); [|done]. intros [= <-]. lia.
  - destruct (decide (sub `prefix_of` c :: l)) as [|Hno].
    + intros [= <-]. lia.
    + destruct (find_list sub l) as [m|] eqn:Em; [|done].
      intros [= <-] Hp. destruct p as [|p]; [done|].
      simpl. apply (IH m); [done|lia].
Qed.

Lemma find_list_before sub l n :
  sub ≠ [] → find_list sub l = Some n → find_list sub (take n l) = None.
Proof.
  intros Hsub Hn.
  assert (Hm : length (take n l) ≤ n) by (rewrite length_take; lia).
  revert Hm. generalize (take_drop n l). generalize (take n l) as m.
  intros m Hl Hm.
  destruct (find_list sub m) as [p|] eqn:Ep; [|done].
  exfalso. apply find_list_Some in Ep.
  assert (Hs : 0 < length sub) by (destruct sub; [done|simpl; lia]).
  pose proof (f_equal length Ep) as Hlen.
  rewrite !length_app, length_take, length_drop in Hlen.
  assert (Hp : p + length sub ≤ length m) by lia.
  apply (find_list_first sub l n p Hn); [lia|].
  exists (drop (p + length sub) m ++ drop n l).
  transitivity (drop p (m ++ drop n l)); [by rewrite Hl|].
  rewrite drop_app_le by lia.
  rewrite Ep at 1. rewrite drop_app_length' by (rewrite length_take; lia).
  by rewrite <- app_assoc.
Qed.

Lemma str_index_Some s sub i :
  str_index s sub None = Ok i →
  ∃ n, i = Z.of_nat n ∧ find_list (chars sub) (chars s) = Some n.
Proof.
  unfold str_index, clamp. change (Z.to_nat 0) with 0. rewrite drop_0.
  destruct (find_list (chars sub) (chars s)) as [n|] eqn:En; [|done].
  intros [= <-]. exists n. split; [lia|done].
Qed.

Lemma from_catalog_procedure definition k :
  str_index definition EXEC_PROC None = Ok k →
  ∃ before,
    definition
    = before +:+ EXEC_PROC
      +:+ str_slice definition (Some (k + len EXEC_PROC)%Z) None
    ∧ str_contains EXEC_PROC before = false.
Proof.
  intros Hk. apply str_index_Some in Hk as (n & -> & Hn).
  pose proof (find_list_Some _ _ _ Hn) as Hl.
  assert (Hlen : n + 18 ≤ length (chars definition)).
  { pose proof (f_equal length Hl) as Hlen.
    rewrite !length_app, length_take, length_drop in Hlen.
    change (length (chars EXEC_PROC)) with 18 in Hlen. lia. }
  exists (str (take n (chars definition))). split.
  - change (len EXEC_PROC) with (Z.of_nat 18).
    rewrite <- Nat2Z.inj_add, str_slice_from by done.
    apply chars_inj. by rewrite !chars_app, !chars_str.
  - unfold str_contains. rewrite chars_str.
    assert (Hne : chars EXEC_PROC ≠ []) by (vm_compute; discriminate).
    rewrite (find_list_before _ _ _ Hne Hn).
    apply bool_decide_eq_false_2. by intros [x Hx].
Qed.

(** X18.  Whatever the definition of a trigger is, when
    [_from_catalog] has read it the trigger has no attribute
    [definition] any more; its events are some of [insert], [update],
    [delete] and [truncate], each once and in this order, whatever
    their order in the definition; its level is [row] or [statement];
    and its procedure is what follows the first [EXECUTE PROCEDURE ] of
    the definition, to the end. *)
Theorem from_catalog_parts (definition : string) (trig trig' : pyobject)
  (evtstart evtstart' : option Z) :
  TriggerCatalog.from_catalog_entry definition trig evtstart
  = Parsed (trig', evtstart') →
  attrs trig' !! "definition" = None
  ∧ (∃ events,
       attrs trig' !! "events" = Some (PList events)
       ∧ events `sublist_of` ["insert"; "update"; "delete"; "truncate"])
  ∧ (attrs trig' !! "level" = Some (PStr "row")
     ∨ attrs trig' !! "level" = Some (PStr "statement"))
  ∧ (∃ before procedure,
       definition = before +:+ EXEC_PROC +:+ procedure
       ∧ str_contains EXEC_PROC before = false
       ∧ attrs trig' !! "procedure" = Some (PStr procedure)).
Proof.
  unfold TriggerCatalog.from_catalog_entry.
  destruct (foldl _ (trig, evtstart) TriggerCatalog.timings) as [trig1 ev1].
  destruct ev1 as [start|]; [|done].
  destruct (TriggerCatalog.parse_from definition trig1 start)
    as [trig2|] eqn:Ep; [|done].
  intros [= <- <-]. unfold TriggerCatalog.parse_from in Ep.
  destruct (str_index definition " ON " (Some start)) as [evtend|]; [|done].
  cbn [mbind result_bind] in Ep.
  set (events := str_lower
                   <$> filter (λ evt, str_contains evt _ = true) EVENT_TYPES)
    in Ep.
  set (level := if str_contains "FOR EACH ROW" definition
                then "row" else "statement") in Ep.
  set (t1 := setattr (setattr trig1 "events" (PList events)) "level"
               (PStr level)) in Ep.
  destruct (if str_contains "WHEN (" definition then _ else Ok t1)
    as [t2|] eqn:Ec; [|done].
  cbn [mbind result_bind] in Ep.
  destruct (str_index definition EXEC_PROC None) as [k|] eqn:Ek; [|done].
  cbn [mbind result_bind] in Ep. injection Ep as <-.
  assert (H2 : ∀ a, a ≠ "condition" → attrs t2 !! a = attrs t1 !! a).
  { intros a Ha. destruct (str_contains "WHEN (" definition).
    - destruct (str_index definition "WHEN (" None) as [i|]; [|done].
      cbn [mbind result_bind] in Ec.
      destruct (str_index definition ") EXECUTE PROCEDURE" None) as [j|];
        [|done].
      cbn [mbind result_bind] in Ec. injection Ec as <-.
      by apply attrs_setattr_ne.
    - by injection Ec as <-. }
  cbn [attrs cls setattr].
  split; [apply lookup_delete_eq|].
  rewrite !lookup_delete_ne by done.
  split; [|split].
  - exists events. rewrite lookup_insert_ne, H2 by done. split.
    { unfold t1, setattr. cbn [attrs]. rewrite lookup_insert_ne by done.
      apply lookup_insert_eq. }
    change ["insert"; "update"; "delete"; "truncate"]
      with (str_lower <$> EVENT_TYPES).
    apply fmap_sublist, sublist_filter.
  - rewrite lookup_insert_ne, H2 by done.
    unfold t1, setattr. cbn [attrs]. rewrite lookup_insert_eq.
    unfold level. destruct (str_contains "FOR EACH ROW" definition); auto.
  - destruct (from_catalog_procedure definition k Ek) as (before & Hd & Hb).
    exists before, (str_slice definition (Some (k + len EXEC_PROC)%Z) None).
    split; [done|]. split; [done|]. apply lookup_insert_eq.
Qed.

Lemma from_catalog_parts_witness :
  ∃ trig' evtstart',
    TriggerCatalog.from_catalog_entry sample_definition sample_fetched None
    = Parsed (trig', evtstart')
    ∧ attrs trig' !! "events" = Some (PList ["insert"; "update"])
    ∧ attrs trig' !! "level" = Some (PStr "row")
    ∧ attrs trig' !! "procedure" = Some (PStr "f_audit()")
    ∧ attrs trig' !! "timing" = Some (PStr "before")
    ∧ attrs trig' !! "definition" = None.
Proof.
  eexists _, _.
  assert (He : TriggerCatalog.from_catalog_entry sample_definition
                 sample_fetched None
               = Parsed (object Trigger
                           [("schema", PStr "public"); ("table", PStr "t1");
                            ("name", PStr "tr1"); ("timing", PStr "before");
                            ("events", PList ["insert"; "update"]);
                            ("level", PStr "row");
                            ("procedure", PStr "f_audit()")], Some 26%Z))
    by (vm_compute; reflexivity).
  split; [exact He|].
  pose proof (from_catalog_parts _ _ _ _ _ He) as (Hd & _).
  do 4 (split; [reflexivity|]). exact Hd.
Defined.
